(** * schemlib: the NBT tag model, packed arrays and the SNBT grammar

    A shallow embedding of [schemlib/nbt.py] and [schemlib/snbt.py].
    Python integers are [Z]; Python's [//] and [%] are [Z.div] and
    [Z.modulo] (both floor towards minus infinity); exceptions are an
    explicit [Raise] result; in-place mutation of a [BitArray] is a store
    of buffers indexed by object identity. *)

From Stdlib Require Import ZArith Lia Bool List String Ascii DecimalString.
From Stdlib Require Import DecimalPos.
From Stdlib Require Import Init.Byte.
From stdpp Require Import base option list gmap.

Local Open Scope Z_scope.
Set Warnings "-register-all".

(** ** Exceptions and results *)

Inductive exn : Type :=
| ValueError
| IndexError
| KeyError
| TypeError
| UnicodeDecodeError
| UnicodeEncodeError
| ReadError           (* bitstring: reading past the end of the stream *)
| JSONDecodeError
| ParseException      (* pyparsing *)
| OutOfFuel           (* not a Python exception: the recursion bound of
                         a fuelled definition was reached *)
| Unmodelled.         (* not a Python exception: the code returns a
                         value that the model does not determine *)

Inductive result (A : Type) : Type :=
| Ok (a : A)
| Raise (e : exn).
Arguments Ok {A} a.
Arguments Raise {A} e.

Definition rbind {A B} (r : result A) (k : A -> result B) : result B :=
  match r with
  | Ok a => k a
  | Raise e => Raise e
  end.

#[global] Instance result_ret : MRet result := fun _ a => Ok a.
#[global] Instance result_bind : MBind result := fun _ _ k r => rbind r k.

(** Python's shifts raise [ValueError] on a negative count. *)
Definition py_shl (a n : Z) : result Z :=
  if n <? 0 then Raise ValueError else Ok (Z.shiftl a n).
Definition py_shr (a n : Z) : result Z :=
  if n <? 0 then Raise ValueError else Ok (Z.shiftr a n).

Definition len {A} (l : list A) : Z := Z.of_nat (length l).

(** Python [str]: a sequence of Unicode code points.  [lit] reads an
    ASCII literal. *)
Definition str : Type := list Z.

Definition lit (s : string) : str :=
  map (fun a => Z.of_N (N_of_ascii a)) (list_ascii_of_string s).

(** [str(n)] for an integer. *)
Definition str_of_int (n : Z) : str := lit (NilZero.string_of_int (Z.to_int n)).

(** Python [float]: the IEEE-754 binary64 bit pattern. *)
Definition float : Type := Z.

(** ** Packed arrays ([_ArrayTag]) *)

Module Packed.

(** The three concrete array classes and their [width] attribute. *)
Inductive array_cls : Type := ByteArray | IntArray | LongArray.

Definition width (cls : array_cls) : Z :=
  match cls with
  | ByteArray => 8
  | IntArray => 32
  | LongArray => 64
  end.

(** A [BitArray] is kept as the sequence of its [width]-bit words, the
    form in which every method reaches it ([Array(self.width)] over
    [self._storage]).  Buffers live in a store keyed by object identity;
    an array object holds the identity of its buffer, its class and, for
    an [ArrayView] subclass, the [virtual_width]. *)
Definition loc := nat.
Abbreviation store := (gmap loc (list Z)).

Record ArrayTag : Type := mkArrayTag {
  cls : array_cls;
  _storage : loc;
  virtual_width : option Z
}.

(** State-and-exception monad: a buffer mutated before a later statement
    raises stays mutated. *)
Definition M (A : Type) : Type := store -> store * result A.

Definition ret {A} (a : A) : M A := fun st => (st, Ok a).
Definition raise {A} (e : exn) : M A := fun st => (st, Raise e).
Definition lift {A} (r : result A) : M A := fun st => (st, r).
Definition bind {A B} (m : M A) (k : A -> M B) : M B :=
  fun st =>
    match m st with
    | (st', Ok a) => k a st'
    | (st', Raise e) => (st', Raise e)
    end.

#[global] Instance M_ret : MRet M := @ret.
#[global] Instance M_bind : MBind M := fun _ _ k m => bind m k.

(** *** bitstring's [Array] over a word sequence *)

(** [arr[k]]: a negative index counts from the end; out of range raises. *)
Definition norm_index {A} (ws : list A) (k : Z) : result nat :=
  let k' := if k <? 0 then k + len ws else k in
  if (k' <? 0) || (len ws <=? k') then Raise IndexError
  else Ok (Z.to_nat k').

Definition Array_getitem (ws : list Z) (k : Z) : result Z :=
  n ← norm_index ws k;
  match ws !! n with
  | Some w => Ok w
  | None => Raise IndexError
  end.

(** [arr[k] = x]: the element is built as an unsigned [w]-bit integer,
    which raises [ValueError] for a value outside [0, 2^w). *)
Definition Array_setitem (w : Z) (ws : list Z) (k x : Z) : result (list Z) :=
  n ← norm_index ws k;
  if (x <? 0) || (2 ^ w <=? x) then Raise ValueError
  else Ok (<[n := x]> ws).

(** [arr[k]] and [arr[k] = x] for the array laid over the buffer at [l]. *)
Definition arr_get (l : loc) (k : Z) : M Z :=
  fun st =>
    match st !! l with
    | Some ws => (st, Array_getitem ws k)
    | None => (st, Raise KeyError)
    end.

Definition arr_set (w : Z) (l : loc) (k x : Z) : M unit :=
  fun st =>
    match st !! l with
    | Some ws =>
        match Array_setitem w ws k x with
        | Ok ws' => (<[l := ws']> st, Ok tt)
        | Raise e => (st, Raise e)
        end
    | None => (st, Raise KeyError)
    end.

(** *** Construction *)

(** [Array(self.width, values).data] for a list of integers: a fresh
    buffer; every value must fit the unsigned width. *)
Definition fits (w x : Z) : bool := (0 <=? x) && (x <? 2 ^ w).

Definition alloc (ws : list Z) : M loc :=
  fun st => let l := fresh (dom st) in (<[l := ws]> st, Ok l).

(** The argument of [__init__]: an existing [BitArray], an [Array]
    (whose [data] is a [BitArray]), or a list of integers. *)
Inductive init_arg : Type :=
| FromBitArray (l : loc)
| FromArray (data : loc)
| FromList (values : list Z).

Definition init (c : array_cls) (vw : option Z) (values : init_arg) : M ArrayTag :=
  match values with
  | FromBitArray l => ret (mkArrayTag c l vw)
  | FromArray data => ret (mkArrayTag c data vw)
  | FromList vs =>
      if forallb (fits (width c)) vs
      then l ← alloc vs; ret (mkArrayTag c l vw)
      else raise ValueError
  end.

(** [cls.empty(length)]: [[0] * length] is empty for a negative length. *)
Definition empty (c : array_cls) (length : Z) : M ArrayTag :=
  init c None (FromList (replicate (Z.to_nat length) 0)).

(** *** [calcsize] *)

(** [max] of a non-empty sequence; [max] of an empty one raises. *)
Definition py_max (vs : list Z) : result Z :=
  match vs with
  | [] => Raise ValueError
  | v :: vs' => Ok (fold_left Z.max vs' v)
  end.

(** [ceil(log2(x))]: a math domain error for [x <= 0].  [math.log2]
    works in binary64: up to [2 ^ 48] an integer is converted exactly
    and the rounding of its logarithm cannot reach an integer that the
    exact logarithm does not reach, so the result is the exact ceiling
    of the binary logarithm.  Above [2 ^ 48] the rounding decides the
    result ([ceil(log2(2 ** 49 + 1))] is 49, not 50), and the model
    does not say what it is. *)
Definition ceil_log2 (x : Z) : result Z :=
  if x <=? 0 then Raise ValueError
  else if x <=? 2 ^ 48 then Ok (Z.log2_up x)
  else Raise Unmodelled.

(** The argument of [calcsize]: one integer or a list of them. *)
Inductive size_arg : Type :=
| OneInt (v : Z)
| IntList (vs : list Z).

Definition calcsize (values : size_arg) : result Z :=
  let values := match values with OneInt v => [v] | IntList vs => vs end in
  mx ← py_max (map Z.abs values);
  lg ← ceil_log2 mx;
  let size := Z.max lg 2 in
  if existsb (fun x => x <? 0) values then Ok (size + 1) else Ok size.

(** *** Indexing *)

Definition getitem (self : ArrayTag) (idx : Z) : M Z :=
  let W := width (cls self) in
  match virtual_width self with
  | None => arr_get (_storage self) idx
  | Some V =>
      let start_offset := idx * V in
      let start_arr_index := start_offset / W in
      let end_arr_index := ((idx + 1) * V - 1) / W in
      let start_bit_offset := start_offset mod W in
      val ← (if start_arr_index =? end_arr_index then
               a ← arr_get (_storage self) start_arr_index;
               lift (py_shr a start_bit_offset)
             else
               let end_offset := W - start_bit_offset in
               a ← arr_get (_storage self) start_arr_index;
               lo ← lift (py_shr a start_bit_offset);
               b ← arr_get (_storage self) end_arr_index;
               hi ← lift (py_shl b end_offset);
               ret (Z.lor lo hi));
      one ← lift (py_shl 1 V);
      ret (Z.land val (one - 1))
  end.

(** [self._storage.overwrite(bits, pos)] with [pos = idx * width]: a
    negative position counts from the end, a position past the end
    raises, the position at the end appends. *)
Definition overwrite_word (w : Z) (ws : list Z) (idx x : Z) : result (list Z) :=
  if negb (fits w x) then Raise ValueError
  else
    let pos := if idx <? 0 then idx + len ws else idx in
    if (pos <? 0) || (len ws <? pos) then Raise ValueError
    else if pos =? len ws then Ok (ws ++ [x])
    else Ok (<[Z.to_nat pos := x]> ws).

Definition setitem (self : ArrayTag) (idx value : Z) : M unit :=
  let W := width (cls self) in
  match virtual_width self with
  | None =>
      fun st =>
        match st !! _storage self with
        | Some ws =>
            match overwrite_word W ws idx value with
            | Ok ws' => (<[_storage self := ws']> st, Ok tt)
            | Raise e => (st, Raise e)
            end
        | None => (st, Raise KeyError)
        end
  | Some V =>
      let start_offset := idx * V in
      let start_arr_index := start_offset / W in
      let end_arr_index := ((idx + 1) * V - 1) / W in
      let start_bit_offset := start_offset mod W in
      let arr := _storage self in
      oneW ← lift (py_shl 1 W);
      let m := oneW - 1 in
      oneV ← lift (py_shl 1 V);
      let mask := oneV - 1 in
      a ← arr_get arr start_arr_index;
      smask ← lift (py_shl mask start_bit_offset);
      let zeroed := Z.land a (Z.lnot smask) in
      sval ← lift (py_shl (Z.land value mask) start_bit_offset);
      let updated := Z.lor zeroed sval in
      arr_set W arr start_arr_index (Z.land updated m);;
      if negb (start_arr_index =? end_arr_index) then
        let end_offset := 64 - start_bit_offset in
        let j1 := V - end_offset in
        b ← arr_get arr end_arr_index;
        b1 ← lift (py_shr b j1);
        b2 ← lift (py_shl b1 j1);
        hi ← lift (py_shr (Z.land value mask) end_offset);
        arr_set W arr end_arr_index (Z.land (Z.lor b2 hi) m)
      else ret tt
  end.

(** *** Views: [__call__] *)

(** [self(dtype)] for an integer [dtype]: [Dtype("uint", dtype)] has
    the bit length [dtype], which is never [None]; the result is an
    instance, on [self._storage] itself, of an [ArrayView] subclass of
    [self]'s class that carries [virtual_width]. *)
Definition call (self : ArrayTag) (dtype : Z) : M ArrayTag :=
  init (cls self) (Some dtype) (FromBitArray (_storage self)).

(** *** [pack_list] *)

(** [ceil(a / b)] for a positive [b]. *)
Definition ceil_div (a b : Z) : Z := - ((- a) / b).

Fixpoint write_all (view : ArrayTag) (i : Z) (values : list Z) : M unit :=
  match values with
  | [] => ret tt
  | value :: rest => setitem view i value;; write_all view (i + 1) rest
  end.

Definition pack_list (c : array_cls) (values : list Z) (width_arg : option Z)
  : M ArrayTag :=
  w ← match width_arg with
      | Some w => ret w
      | None =>
          lift (mx ← py_max values;
                lg ← ceil_log2 mx;
                Ok (Z.max 2 lg))
      end;
  let length := ceil_div (len values * w) (width c) in
  obj ← empty c length;
  view ← call obj w;
  write_all view 0 values;;
  ret obj.

(** *** [asarray] *)

(** The bits of a buffer read as one unsigned integer, the first word
    the most significant: a [BitArray] numbers its bits from the most
    significant bit of its first element. *)
Definition bits_uint (W : Z) (ws : list Z) : Z :=
  fold_left (fun acc w => acc * 2 ^ W + w) ws 0.

(** [Array(Dtype("uint", N), storage)[k]]: the array has as many
    elements as whole groups of [N] bits fit the buffer; element [k] is
    the unsigned integer on the [N] bits from bit position [N * k]. *)
Definition Array_uint_getitem (N W : Z) (ws : list Z) (k : Z) : result Z :=
  let total := W * len ws in
  let n := total / N in
  let k' := if k <? 0 then k + n else k in
  if (k' <? 0) || (n <=? k') then Raise IndexError
  else Ok ((bits_uint W ws / 2 ^ (total - (k' + 1) * N)) mod 2 ^ N).

(** [self.asarray(dtype)[k]], for [dtype] omitted, an integer [N] or the
    string ["uintN"]. *)
Definition asarray_getitem (self : ArrayTag) (dtype : option Z) (k : Z) : M Z :=
  match dtype with
  | None => arr_get (_storage self) k
  | Some N =>
      fun st =>
        match st !! _storage self with
        | Some ws => (st, Array_uint_getitem N (width (cls self)) ws k)
        | None => (st, Raise KeyError)
        end
  end.

(** *** Vocabulary of the statements about packed arrays *)

(** Every word of a buffer is an unsigned [W]-bit integer. *)
Definition well_formed (W : Z) (ws : list Z) : Prop :=
  Forall (fun w => 0 <= w < 2 ^ W) ws.

(** Bit [n] of a buffer read as one bit stream: bit [n mod W] of word
    [n / W]. *)
Definition stream_bit (W : Z) (ws : list Z) (n : Z) : bool :=
  Z.testbit (nth (Z.to_nat (n / W)) ws 0) (n mod W).

Definition any_negative (values : list Z) : bool :=
  existsb (fun x => x <? 0) values.

(** [w] is the least width of at least two bits that is [enough]. *)
Definition least_width (enough : Z -> Prop) (w : Z) : Prop :=
  2 <= w /\ enough w /\ forall w', 2 <= w' -> enough w' -> w <= w'.

(** The width rule as the specification words it: the least width of at
    least two bits that represents the largest magnitude [m] itself, and
    one bit more when a value is negative. *)
Definition calcsize_as_specified (values : list Z) : Prop :=
  forall m, py_max (map Z.abs values) = Ok m ->
  exists w, least_width (fun w => m < 2 ^ w) w
            /\ calcsize (IntList values)
               = Ok (w + if any_negative values then 1 else 0).

(** [pack_list] as the specification words it: the omitted width is
    [calcsize(values)]; then the capacity for the view, the allocation
    and one write per value. *)
Definition pack_list_spec (c : array_cls) (values : list Z)
    (width_arg : option Z) : M ArrayTag :=
  w ← match width_arg with
      | Some w => ret w
      | None => lift (calcsize (IntList values))
      end;
  let capacity := ceil_div (len values * w) (width c) in
  obj ← empty c capacity;
  view ← call obj w;
  write_all view 0 values;;
  ret obj.

(** No slot of a width-[V] view crosses a word of the class, or the
    class has 64-bit words. *)
Definition no_straddle (c : array_cls) (V : Z) : Prop :=
  width c mod V = 0 \/ c = LongArray.

(** The slot of a view that covers the bits of element [k] of
    [asarray(V)], with [q] slots to a word: the same word, counted from
    its other end. *)
Definition mirror (q k : Z) : Z := k / q * q + (q - 1 - k mod q).

(** The claim about views as the specification words it: whatever the
    array and the value, [v[i] = x] through the view [v = a(V)] is
    done, and a width-[V] read of [a]'s buffer at [i] then yields
    [x]. *)
Definition view_write_as_specified (a : ArrayTag) (V i x : Z) (st : store) : Prop :=
  forall v st1, call a V st = (st1, Ok v) ->
  exists st2, setitem v i x st1 = (st2, Ok tt)
    /\ forall v' st3, call a V st2 = (st3, Ok v') ->
         getitem v' i st3 = (st3, Ok x).

(** A two-word [LongArray] buffer, its array object and a 5-bit view. *)
Definition demo_store : store := {[ 0%nat := [0; 0] ]}.
Definition demo_array : ArrayTag := mkArrayTag LongArray 0%nat None.
Definition demo_view : ArrayTag := mkArrayTag LongArray 0%nat (Some 5).

End Packed.

(** ** Tags and the binary codec *)

Module Nbt.

(** The registered tag classes. *)
Inductive tag_type : Type :=
| Byte_t | Short_t | Int_t | Long_t | Float_t | Double_t
| ByteArray_t | String_t | List_t | Compound_t | IntArray_t | LongArray_t.

#[global] Instance tag_type_eq_dec : EqDecision tag_type.
Proof. solve_decision. Defined.

(** [register_tag_type(tag_type_id, tag_type, overwrite=...)] on the
    registry dictionary. *)
Definition register_tag_type (tag_type_id : Z) (t : tag_type) (overwrite : bool)
    (registry : gmap Z tag_type) : result (gmap Z tag_type) :=
  match registry !! tag_type_id with
  | Some _ => if overwrite then Ok (<[tag_type_id := t]> registry)
              else Raise KeyError
  | None => Ok (<[tag_type_id := t]> registry)
  end.

(** The registry after the module's twelve decorators have run. *)
Definition tag_type_registry : gmap Z tag_type :=
  list_to_map
    [ (1, Byte_t); (2, Short_t); (3, Int_t); (4, Long_t); (5, Float_t);
      (6, Double_t); (7, ByteArray_t); (11, IntArray_t); (12, LongArray_t);
      (8, String_t); (9, List_t); (10, Compound_t) ].

Definition tag_type_id (t : tag_type) : Z :=
  match t with
  | Byte_t => 1 | Short_t => 2 | Int_t => 3 | Long_t => 4
  | Float_t => 5 | Double_t => 6 | ByteArray_t => 7 | String_t => 8
  | List_t => 9 | Compound_t => 10 | IntArray_t => 11 | LongArray_t => 12
  end.

(** Tag values.  An array tag is held here by the words of its buffer;
    a [Compound] is an insertion-ordered dictionary. *)
Inductive tag : Type :=
| Byte (v : Z)
| Short (v : Z)
| Int (v : Z)
| Long (v : Z)
| Float (v : float)
| Double (v : float)
| ByteArray (data : list Z)
| String (v : str)
| List (items : list tag)
| Compound (data : list (str * tag))
| IntArray (data : list Z)
| LongArray (data : list Z).

Definition type_of (t : tag) : tag_type :=
  match t with
  | Byte _ => Byte_t | Short _ => Short_t | Int _ => Int_t | Long _ => Long_t
  | Float _ => Float_t | Double _ => Double_t | ByteArray _ => ByteArray_t
  | String _ => String_t | List _ => List_t | Compound _ => Compound_t
  | IntArray _ => IntArray_t | LongArray _ => LongArray_t
  end.

(** [data[key] = value] on an insertion-ordered dictionary: an existing
    key keeps its place, a new key goes last. *)
Fixpoint dict_set {V} (data : list (str * V)) (key : str) (value : V)
  : list (str * V) :=
  match data with
  | [] => [(key, value)]
  | (k, v) :: rest =>
      if decide (k = key) then (k, value) :: rest
      else (k, v) :: dict_set rest key value
  end.

(** [List(items)]: the class is a bare [list] subclass, without an
    [__init__] of its own. *)
Definition List_init (items : list tag) : result tag := Ok (List items).

(** [Compound(data)], likewise a bare [dict] subclass. *)
Definition Compound_init (data : list (str * tag)) : result tag :=
  Ok (Compound data).

(** *** Byte streams *)

Definition byte_to_Z (b : byte) : Z := Z.of_N (Byte.to_N b).

Definition byte_of_Z (z : Z) : byte :=
  match Byte.of_N (Z.to_N (z mod 256)) with
  | Some b => b
  | None => x00
  end.

(** [buff.read(8 * n)]: the next [n] bytes and the advanced stream. *)
Definition read (n : Z) (buff : list byte) : result (list byte * list byte) :=
  if len buff <? n then Raise ReadError
  else Ok (take (Z.to_nat n) buff, drop (Z.to_nat n) buff).

Definition uintbe (bs : list byte) : Z :=
  fold_left (fun acc b => acc * 256 + byte_to_Z b) bs 0.

Definition intbe (bs : list byte) : Z :=
  let u := uintbe bs in
  let bits := 8 * len bs in
  if u <? 2 ^ (bits - 1) then u else u - 2 ^ bits.

Definition read_uintbe (n : Z) (buff : list byte) : result (Z * list byte) :=
  '(bs, buff) ← read n buff; Ok (uintbe bs, buff).

Definition read_intbe (n : Z) (buff : list byte) : result (Z * list byte) :=
  '(bs, buff) ← read n buff; Ok (intbe bs, buff).

(** Big-endian bytes of [v], lowest byte last. *)
Fixpoint be_bytes (n : nat) (v : Z) : list byte :=
  match n with
  | O => []
  | S n' => be_bytes n' (v / 256) ++ [byte_of_Z v]
  end.

(** [Dtype("uintbeN").build(v)] and [Dtype("intbeN").build(v)]: a value
    outside the range of the format raises [ValueError]. *)
Definition build_uintbe (n : nat) (v : Z) : result (list byte) :=
  if (0 <=? v) && (v <? 2 ^ (8 * Z.of_nat n)) then Ok (be_bytes n v)
  else Raise ValueError.

Definition build_intbe (n : nat) (v : Z) : result (list byte) :=
  let half := 2 ^ (8 * Z.of_nat n - 1) in
  if (- half <=? v) && (v <? half) then Ok (be_bytes n (v mod (2 * half)))
  else Raise ValueError.

(** The [n] consecutive [wb]-byte big-endian words of a buffer. *)
Fixpoint words (wb : nat) (n : nat) (bs : list byte) : list Z :=
  match n with
  | O => []
  | S n' => uintbe (take wb bs) :: words wb n' (drop wb bs)
  end.

(** *** UTF-8 *)

Definition is_cont (b : Z) : bool := (0x80 <=? b) && (b <? 0xC0).

(** [bytes.decode("utf8")], strict: no overlong form, no surrogate,
    nothing above U+10FFFF. *)
Fixpoint utf8_decode (bs : list Z) : result str :=
  match bs with
  | [] => Ok []
  | b0 :: r0 =>
      if b0 <? 0x80 then s ← utf8_decode r0; Ok (b0 :: s)
      else if b0 <? 0xC2 then Raise UnicodeDecodeError
      else if b0 <? 0xE0 then
        match r0 with
        | b1 :: r1 =>
            if is_cont b1
            then s ← utf8_decode r1; Ok ((b0 - 0xC0) * 64 + (b1 - 0x80) :: s)
            else Raise UnicodeDecodeError
        | _ => Raise UnicodeDecodeError
        end
      else if b0 <? 0xF0 then
        match r0 with
        | b1 :: b2 :: r2 =>
            let c := (b0 - 0xE0) * 4096 + (b1 - 0x80) * 64 + (b2 - 0x80) in
            if is_cont b1 && is_cont b2 && (0x800 <=? c)
               && negb ((0xD800 <=? c) && (c <=? 0xDFFF))
            then s ← utf8_decode r2; Ok (c :: s)
            else Raise UnicodeDecodeError
        | _ => Raise UnicodeDecodeError
        end
      else if b0 <? 0xF5 then
        match r0 with
        | b1 :: b2 :: b3 :: r3 =>
            let c := (b0 - 0xF0) * 262144 + (b1 - 0x80) * 4096
                     + (b2 - 0x80) * 64 + (b3 - 0x80) in
            if is_cont b1 && is_cont b2 && is_cont b3
               && (0x10000 <=? c) && (c <=? 0x10FFFF)
            then s ← utf8_decode r3; Ok (c :: s)
            else Raise UnicodeDecodeError
        | _ => Raise UnicodeDecodeError
        end
      else Raise UnicodeDecodeError
  end.

(** [str.encode("utf8")]: a surrogate code point cannot be encoded. *)
Definition utf8_encode_char (c : Z) : result (list Z) :=
  if c <? 0x80 then Ok [c]
  else if c <? 0x800 then Ok [0xC0 + c / 64; 0x80 + c mod 64]
  else if (0xD800 <=? c) && (c <=? 0xDFFF) then Raise UnicodeEncodeError
  else if c <? 0x10000 then
    Ok [0xE0 + c / 4096; 0x80 + (c / 64) mod 64; 0x80 + c mod 64]
  else
    Ok [0xF0 + c / 262144; 0x80 + (c / 4096) mod 64;
        0x80 + (c / 64) mod 64; 0x80 + c mod 64].

Fixpoint utf8_encode (s : str) : result (list Z) :=
  match s with
  | [] => Ok []
  | c :: s' => bs ← utf8_encode_char c; rest ← utf8_encode s'; Ok (bs ++ rest)
  end.

(** *** [String] *)

Definition String_from_buff (buff : list byte) : result (tag * list byte) :=
  '(string_length, buff) ← read_uintbe 2 buff;
  '(bs, buff) ← read string_length buff;
  val ← utf8_decode (map byte_to_Z bs);
  Ok (String val, buff).

(** [String(s).to_bytes()]: [len(self)] is the length of the [str]. *)
Definition String_to_bytes (self : str) : result (list byte) :=
  prefix ← build_uintbe 2 (len self);
  bs ← utf8_encode self;
  Ok (prefix ++ map byte_of_Z bs).

(** *** Floats on the wire *)

(** Reading a binary32 pattern widens it, exactly, to binary64. *)
Definition widen_float32 (b : Z) : float :=
  let s := Z.shiftl (Z.shiftr b 31) 63 in
  let e := Z.land (Z.shiftr b 23) 0xFF in
  let m := Z.land b 0x7FFFFF in
  if e =? 0 then
    if m =? 0 then s
    else
      let k := Z.log2 m in
      Z.lor s (Z.lor (Z.shiftl (k - 149 + 1023) 52)
                     (Z.shiftl (m - 2 ^ k) (52 - k)))
  else if e =? 0xFF then
    Z.lor s (Z.lor (Z.shiftl 0x7FF 52)
                   (if m =? 0 then 0 else Z.lor (Z.shiftl m 29) (2 ^ 51)))
  else
    Z.lor s (Z.lor (Z.shiftl (e - 127 + 1023) 52) (Z.shiftl m 29)).

(** *** Decoding *)

(** The list comprehension of [List.from_buff]: [n] items read in turn. *)
Fixpoint read_items (item_from_buff : list byte -> result (tag * list byte))
    (n : nat) (buff : list byte) : result (list tag * list byte) :=
  match n with
  | O => Ok ([], buff)
  | S n' =>
      '(item, buff) ← item_from_buff buff;
      '(items, buff) ← read_items item_from_buff n' buff;
      Ok (item :: items, buff)
  end.

Definition Array_from_buff (c : Packed.array_cls) (mk : list Z -> tag)
    (buff : list byte) : result (tag * list byte) :=
  '(length, buff) ← read_uintbe 4 buff;
  let wb := Packed.width c / 8 in
  '(data, buff) ← read (length * wb) buff;
  Ok (mk (words (Z.to_nat wb) (Z.to_nat length) data), buff).

(** [from_buff] of each class on the stream, which is the bytes not yet
    read; [Compound_entries] is the loop of [Compound.from_buff] with
    the dictionary built so far. *)
Fixpoint from_buff (fuel : nat) (t : tag_type) (buff : list byte) {struct fuel}
  : result (tag * list byte) :=
  match fuel with
  | O => Raise OutOfFuel
  | S fuel' =>
      match t with
      | Byte_t => '(v, buff) ← read_intbe 1 buff; Ok (Byte v, buff)
      | Short_t => '(v, buff) ← read_intbe 2 buff; Ok (Short v, buff)
      | Int_t => '(v, buff) ← read_intbe 4 buff; Ok (Int v, buff)
      | Long_t => '(v, buff) ← read_intbe 8 buff; Ok (Long v, buff)
      | Float_t =>
          '(v, buff) ← read_uintbe 4 buff; Ok (Float (widen_float32 v), buff)
      | Double_t => '(v, buff) ← read_uintbe 8 buff; Ok (Double v, buff)
      | ByteArray_t => Array_from_buff Packed.ByteArray ByteArray buff
      | IntArray_t => Array_from_buff Packed.IntArray IntArray buff
      | LongArray_t => Array_from_buff Packed.LongArray LongArray buff
      | String_t => String_from_buff buff
      | List_t =>
          '(item_tag_type_id, buff) ← read_intbe 1 buff;
          '(list_length, buff) ← read_intbe 4 buff;
          if item_tag_type_id =? 0 then List_init []
                                        ≫= (fun l => Ok (l, buff))
          else
            match tag_type_registry !! item_tag_type_id with
            | None => Raise ValueError
            | Some item_tag_type =>
                '(items, buff) ← read_items (from_buff fuel' item_tag_type)
                                   (Z.to_nat list_length) buff;
                l ← List_init items;
                Ok (l, buff)
            end
      | Compound_t =>
          '(data, buff) ← Compound_entries fuel' [] buff;
          c ← Compound_init data;
          Ok (c, buff)
      end
  end
with Compound_entries (fuel : nat) (data : list (str * tag)) (buff : list byte)
    {struct fuel} : result (list (str * tag) * list byte) :=
  match fuel with
  | O => Raise OutOfFuel
  | S fuel' =>
      match buff with
      | [] => Ok (data, buff)
      | _ =>
          '(tag_type_id, buff) ← read_intbe 1 buff;
          if tag_type_id =? 0 then Ok (data, buff)
          else
            match tag_type_registry !! tag_type_id with
            | None => Raise ValueError
            | Some tag_type =>
                '(key, buff) ← String_from_buff buff;
                let key := match key with String s => s | _ => [] end in
                '(value, buff) ← from_buff fuel' tag_type buff;
                Compound_entries fuel' (dict_set data key value) buff
            end
      end
  end.

(** Enough fuel for a stream: every nested call starts on a stream at
    least one byte shorter. *)
Definition fuel_for (buff : list byte) : nat := S (S (length buff)).

(** [cls.from_bytes(bytes_)]. *)
Definition from_bytes (t : tag_type) (bytes_ : list byte) : result tag :=
  '(v, _) ← from_buff (fuel_for bytes_) t bytes_; Ok v.

(** *** The named root *)

Record Named : Type := mkNamed {
  name : str;
  contents : list (str * tag)
}.

(** [dict.__init__(value)] on the value under the root's name.  A
    [Compound] gives its entries.  Any other tag is taken as a sequence
    of key and value pairs: a number is not iterable ([TypeError]); an
    empty string, list or array gives no entry; the first character of
    a string is no pair ([ValueError]), nor is the first integer of an
    array or a number at the head of a list ([TypeError]).  A list
    that starts with a string, a list, an array or a dictionary can
    give entries that are no tags; the model does not say which. *)
Definition dict_init (value : tag) : result (list (str * tag)) :=
  match value with
  | Compound d => Ok d
  | Byte _ | Short _ | Int _ | Long _ | Float _ | Double _ => Raise TypeError
  | String [] | List [] | ByteArray [] | IntArray [] | LongArray [] => Ok []
  | String (_ :: _) => Raise ValueError
  | ByteArray (_ :: _) | IntArray (_ :: _) | LongArray (_ :: _) =>
      Raise TypeError
  | List ((Byte _ | Short _ | Int _ | Long _ | Float _ | Double _) :: _) =>
      Raise TypeError
  | List (_ :: _) => Raise Unmodelled
  end.

(** [Named.__init__(initialdata)]: exactly one key, whose value becomes
    the root's own dictionary; more than one key is refused, and
    unpacking the keys of an empty dictionary raises [ValueError]. *)
Definition Named_init (initialdata : list (str * tag)) : result Named :=
  if 1 <? len initialdata then Raise ValueError
  else
    match initialdata with
    | [(name, value)] => d ← dict_init value; Ok (mkNamed name d)
    | _ => Raise ValueError
    end.

(** [Named.from_bytes]: the inherited [Compound.from_buff] loop, then
    [cls(data)] with [cls = Named]. *)
Definition Named_from_bytes (bytes_ : list byte) : result Named :=
  '(data, _) ← Compound_entries (S (fuel_for bytes_)) [] bytes_;
  Named_init data.

Section Load.
(** [gzip.decompress], left abstract. *)
Variable gzip_decompress : list byte -> result (list byte).

(** [load_nbt_from_bytes(bytes_)] with no model. *)
Definition load_nbt_from_bytes (bytes_ : list byte) : result Named :=
  bytes_ ← (if decide (map byte_to_Z (take 2 bytes_) = [0x1f; 0x8b])
            then gzip_decompress bytes_ else Ok bytes_);
  Named_from_bytes bytes_.
End Load.

(** *** Encoding *)

Section Encode.
(** [Dtype("floatbe32").build(v)]: the narrowing of a Python float to
    four bytes, left abstract. *)
Variable build_floatbe32 : float -> result (list byte).

Fixpoint to_bytes (t : tag) : result (list byte) :=
  let Array_to_bytes (wb : nat) (data : list Z) :=
    prefix ← build_uintbe 4 (len data);
    Ok (prefix ++ concat (map (be_bytes wb) data)) in
  match t with
  | Byte v => build_intbe 1 v
  | Short v => build_intbe 2 v
  | Int v => build_intbe 4 v
  | Long v => build_intbe 8 v
  | Float v => build_floatbe32 v
  | Double v => Ok (be_bytes 8 v)
  | ByteArray data => Array_to_bytes 1%nat data
  | IntArray data => Array_to_bytes 4%nat data
  | LongArray data => Array_to_bytes 8%nat data
  | String v => String_to_bytes v
  | List items =>
      let item_tag_type_id :=
        match items with
        | item :: _ => tag_type_id (type_of item)
        | [] => 0
        end in
      b1 ← build_uintbe 1 item_tag_type_id;
      b4 ← build_uintbe 4 (len items);
      packed ← (fix each (items : list tag) : result (list byte) :=
                  match items with
                  | [] => Ok []
                  | item :: rest =>
                      b ← to_bytes item; bs ← each rest; Ok (b ++ bs)
                  end) items;
      Ok (b1 ++ b4 ++ packed)
  | Compound data =>
      buff ← (fix each (data : list (str * tag)) : result (list byte) :=
                match data with
                | [] => Ok []
                | (key, value) :: rest =>
                    b1 ← build_intbe 1 (tag_type_id (type_of value));
                    bk ← String_to_bytes key;
                    bv ← to_bytes value;
                    bs ← each rest;
                    Ok (b1 ++ bk ++ bv ++ bs)
                end) data;
      b0 ← build_intbe 1 0;
      Ok (buff ++ b0)
  end.
End Encode.

Section Dump.
Variable build_floatbe32 : float -> result (list byte).
(** [gzip.compress(bytes_, mtime=0)], left abstract. *)
Variable gzip_compress : list byte -> list byte.

(** The loop of [List.to_bytes] over the items, and the loop of
    [Compound.to_bytes] over the entries, each on its own. *)
Fixpoint encode_items (items : list tag) : result (list byte) :=
  match items with
  | [] => Ok []
  | item :: rest =>
      b ← to_bytes build_floatbe32 item; bs ← encode_items rest; Ok (b ++ bs)
  end.


End Dump.

(** *** Vocabulary of the statements about the codec *)

(** [0a 00 00 08 00 03 "foo" 00 03 "bar" 00]. *)
Definition named_fixture : list byte :=
  [x0a; x00; x00; x08; x00; x03; x66; x6f; x6f; x00; x03; x62; x61; x72; x00].

(** The streams of the two tests on an unregistered kind byte. *)
Definition unknown_kind_compound : list byte :=
  [x0a; x00; x00; xa3; x00; x03; x66; x6f; x6f].
Definition unknown_kind_list : list byte :=
  [xa3; x00; x00; x00; x03; x00; x00; x00; x01; x00; x00; x00; x02;
   x00; x00; x00; x03].

(** A normal return of the [Compound] loop on [buff] leaving [rest]: the
    stream is exhausted, or the byte just consumed is the end sentinel. *)
Definition stopped_at_end (buff rest : list byte) : Prop :=
  rest = [] \/ exists pre, buff = pre ++ x00 :: rest.

(** U+00E9: one code point, two UTF-8 bytes. *)
Definition e_acute : str := [233].

(** A string of ASCII characters only. *)
Definition ascii_str (s : str) : Prop := Forall (fun c => 0 <= c < 128) s.

(** The elements of [List([Byte(1), Int(2)])]. *)
Definition mixed : list tag := [Byte 1; Int 2].

(** The calls of [register_tag_type] that the class decorators of the
    module make, in the order of the source. *)
Definition module_registrations : list (Z * tag_type) :=
  [ (1, Byte_t); (2, Short_t); (3, Int_t); (4, Long_t); (5, Float_t);
    (6, Double_t); (7, ByteArray_t); (11, IntArray_t); (12, LongArray_t);
    (8, String_t); (9, List_t); (10, Compound_t) ].

Fixpoint register_all (calls : list (Z * tag_type)) (registry : gmap Z tag_type)
  : result (gmap Z tag_type) :=
  match calls with
  | [] => Ok registry
  | (i, t) :: rest =>
      registry ← register_tag_type i t false registry;
      register_all rest registry
  end.

(** The signed range of an [n]-byte integer. *)
Definition in_intbe (n v : Z) : bool :=
  (- 2 ^ (8 * n - 1) <=? v) && (v <? 2 ^ (8 * n - 1)).



(** Every item has the kind of the first. *)
Definition same_kind (items : list tag) : bool :=
  match items with
  | [] => true
  | x :: rest => forallb (fun y => bool_decide (type_of y = type_of x)) rest
  end.


(** A Unicode scalar value: a code point that is not a surrogate. *)
Definition scalar_value (c : Z) : bool :=
  (0 <=? c) && (c <=? 0x10FFFF) && negb ((0xD800 <=? c) && (c <=? 0xDFFF)).

(** The shape of every tag the decoder returns: integers in the range
    of their kind, array words within the word size, strings of scalar
    values, lists of one kind, dictionaries without a repeated key. *)
Fixpoint well_formed_tag (t : tag) : bool :=
  match t with
  | Byte v => in_intbe 1 v
  | Short v => in_intbe 2 v
  | Int v => in_intbe 4 v
  | Long v => in_intbe 8 v
  | Float _ => true
  | Double _ => true
  | ByteArray data => forallb (Packed.fits 8) data
  | IntArray data => forallb (Packed.fits 32) data
  | LongArray data => forallb (Packed.fits 64) data
  | String s => forallb scalar_value s
  | List items => same_kind items && forallb well_formed_tag items
  | Compound data =>
      bool_decide (NoDup (map fst data))
      && forallb (fun kv => well_formed_tag (snd kv)) data
  end.


End Nbt.

(** ** The textual notation ([snbt.py]) *)

Module Snbt.
Import Nbt.

(** *** pyparsing *)

(** The outcome of a parser element at a position, the position being
    the text not yet consumed: a match, a [ParseException] (which an
    enclosing alternative may recover from), or another exception, which
    leaves [parse_string] at once. *)
Inductive presult (A : Type) : Type :=
| Parsed (a : A) (rest : str)
| NoMatch
| Abort (e : exn).
Arguments Parsed {A} a rest.
Arguments NoMatch {A}.
Arguments Abort {A} e.

Definition parser (A : Type) : Type := str -> presult A.

Definition pbind {A B} (p : presult A) (k : A -> str -> presult B) : presult B :=
  match p with
  | Parsed a rest => k a rest
  | NoMatch => NoMatch
  | Abort e => Abort e
  end.

(** [p.add_parse_action(f)]. *)
Definition action {A B} (p : parser A) (f : A -> B) : parser B :=
  fun s => pbind (p s) (fun a rest => Parsed (f a) rest).

(** [p + q], keeping both results. *)
Definition And {A B} (p : parser A) (q : parser B) : parser (A * B) :=
  fun s => pbind (p s) (fun a rest =>
           pbind (q rest) (fun b rest' => Parsed (a, b) rest')).

(** [p + Suppress(q)] and [Suppress(p) + q]. *)
Definition And_l {A B} (p : parser A) (q : parser B) : parser A :=
  action (And p q) fst.
Definition And_r {A B} (p : parser A) (q : parser B) : parser B :=
  action (And p q) snd.

(** [p | q | ...]: the first alternative that matches. *)
Fixpoint MatchFirst {A} (ps : list (parser A)) : parser A :=
  fun s =>
    match ps with
    | [] => NoMatch
    | p :: ps' =>
        match p s with
        | NoMatch => MatchFirst ps' s
        | r => r
        end
    end.

Definition Optional {A} (p : parser (list A)) : parser (list A) :=
  fun s =>
    match p s with
    | NoMatch => Parsed [] s
    | r => r
    end.

Fixpoint ZeroOrMore_from {A} (fuel : nat) (p : parser A) (s : str)
  : presult (list A) :=
  match fuel with
  | O => Abort OutOfFuel
  | S fuel' =>
      match p s with
      | Parsed a rest =>
          pbind (ZeroOrMore_from fuel' p rest)
                (fun l rest' => Parsed (a :: l) rest')
      | NoMatch => Parsed [] s
      | Abort e => Abort e
      end
  end.

Definition ZeroOrMore {A} (p : parser A) : parser (list A) :=
  fun s => ZeroOrMore_from (S (length s)) p s.

(** Leading white space, skipped before every element outside a
    [Combine]. *)
Definition is_space (c : Z) : bool :=
  (c =? 32) || (c =? 10) || (c =? 9) || (c =? 13).

Fixpoint skip_ws (s : str) : str :=
  match s with
  | c :: s' => if is_space c then skip_ws s' else s
  | [] => []
  end.

Fixpoint strip_prefix (l s : str) : option str :=
  match l, s with
  | [], _ => Some s
  | a :: l', c :: s' => if a =? c then strip_prefix l' s' else None
  | _ :: _, [] => None
  end.

(** [Literal(l)] with white space left alone, as inside a [Combine]. *)
Definition Literal_here (l : str) : parser str :=
  fun s =>
    match strip_prefix l s with
    | Some rest => Parsed l rest
    | None => NoMatch
    end.

Definition Literal (l : str) : parser str :=
  fun s => Literal_here l (skip_ws s).

Definition upper (c : Z) : Z :=
  if (97 <=? c) && (c <=? 122) then c - 32 else c.

(** [CaselessLiteral(l)] for a one-letter [l]. *)
Definition CaselessLiteral (l : Z) : parser str :=
  fun s =>
    match skip_ws s with
    | c :: rest => if upper c =? upper l then Parsed [l] rest else NoMatch
    | [] => NoMatch
    end.

Fixpoint span (f : Z -> bool) (s : str) : str * str :=
  match s with
  | c :: s' =>
      if f c then let '(a, b) := span f s' in (c :: a, b) else ([], s)
  | [] => ([], [])
  end.

(** [Word(chars)] with white space left alone. *)
Definition Word_here (chars : Z -> bool) : parser str :=
  fun s =>
    match span chars s with
    | ([], _) => NoMatch
    | (w, rest) => Parsed w rest
    end.

Definition Word (chars : Z -> bool) : parser str :=
  fun s => Word_here chars (skip_ws s).

(** [DelimitedList(p)]: [p + ZeroOrMore(Suppress(",") + p)]. *)
Definition DelimitedList {A} (p : parser A) : parser (list A) :=
  action (And p (ZeroOrMore (And_r (Literal (lit ",")) p)))
         (fun '(a, l) => a :: l).

(** Character classes. *)
Definition is_digit (c : Z) : bool := (48 <=? c) && (c <=? 57).
Definition is_alpha (c : Z) : bool :=
  ((65 <=? c) && (c <=? 90)) || ((97 <=? c) && (c <=? 122)).
Definition is_hex (c : Z) : bool :=
  is_digit c || ((65 <=? c) && (c <=? 70)) || ((97 <=? c) && (c <=? 102)).
Definition is_sign (c : Z) : bool := (c =? 43) || (c =? 45).

(** [pp.alphanums + "_-.+"]. *)
Definition key_char (c : Z) : bool :=
  is_alpha c || is_digit c
  || (c =? 95) || (c =? 45) || (c =? 46) || (c =? 43).

(** An optional sign at the head of a regular expression. *)
Definition opt_sign (s : str) : str * str :=
  match s with
  | c :: s' => if is_sign c then ([c], s') else ([], s)
  | [] => ([], [])
  end.

(** [int(text)] for a text matching [[+-]?\d+]. *)
Definition int_of_str (text : str) : Z :=
  let '(sign, ds) := opt_sign text in
  let n := fold_left (fun acc d => acc * 10 + (d - 48)) ds 0 in
  if decide (sign = [45]) then - n else n.

(** The longest run of [\d] at the head of [s].  On a [str] pattern
    [\d] matches the ASCII digits and the other Unicode decimal digits
    (U+0663 is one).  Which code points above U+007F are decimal digits
    is a matter of the interpreter's Unicode tables: where the run of
    ASCII digits ends at such a character, the model gives no
    result. *)
Definition digits : parser str :=
  fun s =>
    let '(ds, rest) := span is_digit s in
    match rest with
    | c :: _ => if 127 <? c then Abort Unmodelled else Parsed ds rest
    | [] => Parsed ds rest
    end.

(** [pyparsing_common.signed_integer]: the regular expression
    [[+-]?\d+], converted by [int]. *)
Definition signed_integer : parser Z :=
  fun s =>
    let '(sign, r) := opt_sign (skip_ws s) in
    pbind (digits r) (fun ds rest =>
      match ds with
      | [] => NoMatch
      | _ => Parsed (int_of_str (sign ++ ds)) rest
      end).

(** The text matched by [[+-]?\d+\.?\d*(?:[eE][+-]?\d+)?], the regular
    expression of [pyparsing_common.fnumber]. *)
Definition fnumber_lexeme : parser str :=
  fun s =>
    let '(sign, r) := opt_sign s in
    pbind (digits r) (fun ds r =>
      match ds with
      | [] => NoMatch
      | _ =>
          let '(dot, r) := match r with
                           | 46 :: r' => ([46], r')
                           | _ => ([], r)
                           end in
          pbind (digits r) (fun fs r =>
            let mantissa := sign ++ ds ++ dot ++ fs in
            match r with
            | e :: r' =>
                if (e =? 101) || (e =? 69) then
                  let '(esign, r'') := opt_sign r' in
                  pbind (digits r'') (fun es rest =>
                    match es with
                    | [] => Parsed mantissa r
                    | _ => Parsed (mantissa ++ [e] ++ esign ++ es) rest
                    end)
                else Parsed mantissa r
            | [] => Parsed mantissa r
            end)
      end).

(** The body of a quoted string after its opening quote [q], by the
    regular expression [(?:[^q\n\r\\]|(?:qq)|(?:\\(?:[^x]|x[0-9a-fA-F]+)))*]:
    the text matched and the text left. *)
Fixpoint quoted_body (fuel : nat) (q : Z) (s : str) : str * str :=
  match fuel with
  | O => ([], s)
  | S fuel' =>
      match s with
      | [] => ([], s)
      | c :: s' =>
          if c =? q then
            match s' with
            | c' :: s'' =>
                if c' =? q
                then let '(a, b) := quoted_body fuel' q s'' in (c :: c' :: a, b)
                else ([], s)
            | [] => ([], s)
            end
          else if c =? 92 then
            match s' with
            | [] => ([], s)
            | c' :: s'' =>
                if c' =? 120 then
                  match span is_hex s'' with
                  | ([], _) => ([], s)
                  | (hs, rest) =>
                      let '(a, b) := quoted_body fuel' q rest in
                      (c :: c' :: hs ++ a, b)
                  end
                else let '(a, b) := quoted_body fuel' q s'' in (c :: c' :: a, b)
            end
          else if (c =? 10) || (c =? 13) then ([], s)
          else let '(a, b) := quoted_body fuel' q s' in (c :: a, b)
      end
  end.

(** [quoted_string]: a double- or single-quoted string, quotes kept. *)
Definition quoted_with (q : Z) : parser str :=
  fun s =>
    match s with
    | c :: s' =>
        if c =? q then
          let '(body, rest) := quoted_body (length s') q s' in
          pbind (Literal_here [q] rest)
                (fun _ rest' => Parsed (q :: body ++ [q]) rest')
        else NoMatch
    | [] => NoMatch
    end.

Definition quoted_string : parser str :=
  fun s => MatchFirst [quoted_with 34; quoted_with 39] (skip_ws s).

(** [pp.remove_quotes]: [t[0][1:-1]]. *)
Definition remove_quotes (t : str) : str := removelast (tail t).

(** *** json *)

Definition hex_digit (n : Z) : Z := if n <? 10 then 48 + n else 87 + n.

Definition hex4 (n : Z) : str :=
  [92; 117; hex_digit (n / 4096 mod 16); hex_digit (n / 256 mod 16);
   hex_digit (n / 16 mod 16); hex_digit (n mod 16)].

(** [json.dumps] of a string, with the default [ensure_ascii]. *)
Definition json_escape (c : Z) : str :=
  if c =? 34 then [92; 34]
  else if c =? 92 then [92; 92]
  else if c =? 10 then [92; 110]
  else if c =? 13 then [92; 114]
  else if c =? 9 then [92; 116]
  else if c =? 12 then [92; 102]
  else if c =? 8 then [92; 98]
  else if (32 <=? c) && (c <=? 126) then [c]
  else if c <? 65536 then hex4 c
  else
    let v := c - 65536 in
    hex4 (55296 + Z.land (Z.shiftr v 10) 1023) ++ hex4 (56320 + Z.land v 1023).

Definition json_dumps (s : str) : str :=
  [34] ++ concat (map json_escape s) ++ [34].

Definition hex_value (c : Z) : Z :=
  if is_digit c then c - 48
  else if c <=? 70 then c - 55 else c - 87.

(** Four hexadecimal digits at the head of [s]. *)
Definition read_hex4 (s : str) : option (Z * str) :=
  match s with
  | a :: b :: c :: d :: rest =>
      if is_hex a && is_hex b && is_hex c && is_hex d
      then Some (((hex_value a * 16 + hex_value b) * 16 + hex_value c) * 16
                 + hex_value d, rest)
      else None
  | _ => None
  end.

(** The scanner of a JSON string body, after the opening quote: the
    decoded string and the text after the closing quote. *)
Fixpoint scanstring (fuel : nat) (s : str) : result (str * str) :=
  match fuel with
  | O => Raise OutOfFuel
  | S fuel' =>
      match s with
      | [] => Raise JSONDecodeError
      | c :: s' =>
          if c =? 34 then Ok ([], s')
          else if c <? 32 then Raise JSONDecodeError
          else if c =? 92 then
            match s' with
            | [] => Raise JSONDecodeError
            | e :: s'' =>
                if e =? 117 then
                  match read_hex4 s'' with
                  | None => Raise JSONDecodeError
                  | Some (uni, r) =>
                      if (55296 <=? uni) && (uni <=? 56319) then
                        match r with
                        | 92 :: 117 :: r' =>
                            match read_hex4 r' with
                            | None => Raise JSONDecodeError
                            | Some (uni2, r'') =>
                                if (56320 <=? uni2) && (uni2 <=? 57343) then
                                  '(t, rest) ← scanstring fuel' r'';
                                  Ok (65536 + Z.lor (Z.shiftl (uni - 55296) 10)
                                                    (uni2 - 56320) :: t, rest)
                                else
                                  '(t, rest) ← scanstring fuel' r;
                                  Ok (uni :: t, rest)
                            end
                        | _ => '(t, rest) ← scanstring fuel' r; Ok (uni :: t, rest)
                        end
                      else '(t, rest) ← scanstring fuel' r; Ok (uni :: t, rest)
                  end
                else
                  let simple (x : Z) :=
                    '(t, rest) ← scanstring fuel' s''; Ok (x :: t, rest) in
                  if e =? 34 then simple 34
                  else if e =? 92 then simple 92
                  else if e =? 47 then simple 47
                  else if e =? 98 then simple 8
                  else if e =? 102 then simple 12
                  else if e =? 110 then simple 10
                  else if e =? 114 then simple 13
                  else if e =? 116 then simple 9
                  else Raise JSONDecodeError
            end
          else '(t, rest) ← scanstring fuel' s'; Ok (c :: t, rest)
      end
  end.

(** [json.loads] on a token that [quoted_string] matched: it must be one
    JSON string and nothing more. *)
Definition json_loads (token : str) : result str :=
  match skip_ws token with
  | 34 :: body =>
      '(v, rest) ← scanstring (S (length body)) body;
      match skip_ws rest with
      | [] => Ok v
      | _ => Raise JSONDecodeError
      end
  | _ => Raise JSONDecodeError
  end.

(** A parse action that may raise. *)
Definition action_raising {A B} (p : parser A) (f : A -> result B) : parser B :=
  fun s => pbind (p s) (fun a rest =>
    match f a with
    | Ok b => Parsed b rest
    | Raise e => Abort e
    end).

(** *** The grammar *)

(** The value half of the pairs the parse actions build. *)
Inductive raw : Type :=
| RInt (v : Z)
| RFloat (v : float)
| RStr (v : str)
| RInts (vs : list Z)
| RItems (items : list (tag_type * raw))
| RPairs (pairs : list (str * (tag_type * raw))).

Abbreviation parsed := (tag_type * raw)%type.

Section Grammar.
(** [float(text)] for a text matched by one of the number expressions,
    and the formatting of a float inside an f-string, both left
    abstract. *)
Variable float_of_str : str -> float.
Variable str_of_float : float -> str.

Definition suffixed {A} (p : parser A) (letter : Z) : parser A :=
  And_l p (CaselessLiteral letter).

Definition fnumber : parser float :=
  fun s => action fnumber_lexeme float_of_str (skip_ws s).

(** [Combine(Word(nums) + "." + Word(nums))]. *)
Definition FloatingPointNumber : parser float :=
  fun s =>
    action (And (Word_here is_digit)
                (And (Literal_here (lit ".")) (Word_here is_digit)))
           (fun '(a, (b, c)) => float_of_str (a ++ b ++ c))
           (skip_ws s).

Definition Byte : parser parsed :=
  action (suffixed signed_integer 66) (fun v => (Byte_t, RInt v)).
Definition Short : parser parsed :=
  action (suffixed signed_integer 83) (fun v => (Short_t, RInt v)).
Definition Int : parser parsed :=
  action signed_integer (fun v => (Int_t, RInt v)).
Definition Long : parser parsed :=
  action (suffixed signed_integer 76) (fun v => (Long_t, RInt v)).
Definition Float : parser parsed :=
  action (suffixed fnumber 70) (fun v => (Float_t, RFloat v)).
Definition Double : parser parsed :=
  action (MatchFirst [suffixed fnumber 68; FloatingPointNumber])
         (fun v => (Double_t, RFloat v)).
Definition String : parser parsed :=
  action_raising quoted_string
    (fun t => v ← json_loads t; Ok (String_t, RStr v)).

Definition int_of_parsed (x : parsed) : Z :=
  match snd x with RInt v => v | _ => 0 end.

(** [[B; ...]], [[I; ...]] and [[L; ...]]. *)
Definition array_of (sigil : string) (t : tag_type) (elem : parser parsed)
  : parser parsed :=
  action (And_l (And_r (Literal (lit sigil)) (Optional (DelimitedList elem)))
                (Literal (lit "]")))
         (fun toks => (t, RInts (map int_of_parsed toks))).

Definition ByteArray : parser parsed := array_of "[B;" ByteArray_t Byte.
Definition IntArray : parser parsed := array_of "[I;" IntArray_t Int.
Definition LongArray : parser parsed := array_of "[L;" LongArray_t Long.

(** [List] and [Compound] over the forward-declared [SnbtValue]. *)
Definition List (SnbtValue : parser parsed) : parser parsed :=
  action (And_l (And_r (Literal (lit "["))
                       (Optional (DelimitedList SnbtValue)))
                (Literal (lit "]")))
         (fun toks => (List_t, RItems toks)).

Definition CompoundKey : parser str :=
  MatchFirst [Word key_char; action quoted_string remove_quotes].

Definition CompoundValues (SnbtValue : parser parsed)
  : parser (list (str * parsed)) :=
  DelimitedList (And CompoundKey (And_r (Literal (lit ":")) SnbtValue)).

Definition Compound (SnbtValue : parser parsed) : parser parsed :=
  action (And_l (And_r (Literal (lit "{"))
                       (Optional (CompoundValues SnbtValue)))
                (Literal (lit "}")))
         (fun toks => (Compound_t, RPairs toks)).

Fixpoint SnbtValue (fuel : nat) : parser parsed :=
  fun s =>
    match fuel with
    | O => Abort OutOfFuel
    | S fuel' =>
        MatchFirst
          [ Byte; Short; Long; Float; Double; Int; String;
            ByteArray; IntArray; LongArray;
            List (SnbtValue fuel'); Compound (SnbtValue fuel') ] s
    end.

(** *** [make_tag] *)

(** [tag_type(value)] for the classes that are neither [List] nor
    [Compound]. *)
Definition construct (t : tag_type) (value : raw) : result tag :=
  let array (c : Packed.array_cls) (mk : list Z -> tag) (vs : list Z) :=
    if forallb (Packed.fits (Packed.width c)) vs then Ok (mk vs)
    else Raise ValueError in
  match t, value with
  | Byte_t, RInt v => Ok (Nbt.Byte v)
  | Short_t, RInt v => Ok (Nbt.Short v)
  | Int_t, RInt v => Ok (Nbt.Int v)
  | Long_t, RInt v => Ok (Nbt.Long v)
  | Float_t, RFloat v => Ok (Nbt.Float v)
  | Double_t, RFloat v => Ok (Nbt.Double v)
  | String_t, RStr v => Ok (Nbt.String v)
  | ByteArray_t, RInts vs => array Packed.ByteArray Nbt.ByteArray vs
  | IntArray_t, RInts vs => array Packed.IntArray Nbt.IntArray vs
  | LongArray_t, RInts vs => array Packed.LongArray Nbt.LongArray vs
  | _, _ => Raise TypeError
  end.

Fixpoint make_tag (t : tag_type) (value : raw) {struct value} : result tag :=
  match t, value with
  | List_t, RItems items =>
      l ← (fix each (items : list parsed) : result (list tag) :=
             match items with
             | [] => Ok []
             | (item_tag_type, item_tag_value) :: rest =>
                 x ← make_tag item_tag_type item_tag_value;
                 xs ← each rest;
                 Ok (x :: xs)
             end) items;
      List_init l
  | Compound_t, RPairs pairs =>
      d ← (fix each (pairs : list (str * parsed)) (data : list (str * tag))
             : result (list (str * tag)) :=
             match pairs with
             | [] => Ok data
             | (k, (item_tag_type, item_tag_value)) :: rest =>
                 x ← make_tag item_tag_type item_tag_value;
                 each rest (dict_set data k x)
             end) pairs [];
      Compound_init d
  | _, _ => construct t value
  end.

(** [str.expandtabs()], which [parse_string] applies to its input. *)
Fixpoint expandtabs (column : Z) (s : str) : str :=
  match s with
  | [] => []
  | c :: s' =>
      if c =? 9 then
        let n := 8 - column mod 8 in
        replicate (Z.to_nat n) 32 ++ expandtabs 0 s'
      else if (c =? 10) || (c =? 13) then c :: expandtabs 0 s'
      else c :: expandtabs (column + 1) s'
  end.

(** [from_snbt(v)]: [SnbtValue.parse_string(v)[0]], then [make_tag]. *)
Definition from_snbt (v : str) : result tag :=
  let v := expandtabs 0 v in
  match SnbtValue (S (length v)) v with
  | Parsed (tag_type, value) _ => make_tag tag_type value
  | NoMatch => Raise ParseException
  | Abort e => Raise e
  end.

(** *** [to_snbt] *)

Fixpoint join (sep : str) (parts : list str) : str :=
  match parts with
  | [] => []
  | [p] => p
  | p :: rest => p ++ sep ++ join sep rest
  end.

Definition key_to_snbt (key : str) : str :=
  if existsb (fun c => negb (key_char c)) key then json_dumps key else key.

Definition array_to_snbt (unit : str) (plain : bool) (data : list Z) : str :=
  let values :=
    map (fun x => if plain then str_of_int x else str_of_int x ++ unit) data in
  lit "[" ++ unit ++ lit ";" ++ join (lit ",") values ++ lit "]".

Fixpoint to_snbt (v : tag) : str :=
  match v with
  | Nbt.Byte x => str_of_int x ++ lit "B"
  | Nbt.Short x => str_of_int x ++ lit "S"
  | Nbt.Int x => str_of_int x
  | Nbt.Long x => str_of_int x ++ lit "L"
  | Nbt.Float x => str_of_float x ++ lit "F"
  | Nbt.Double x => str_of_float x ++ lit "D"
  | Nbt.String s => json_dumps s
  | Nbt.List items =>
      let values := map to_snbt items in
      lit "[" ++ join (lit ",") values ++ lit "]"
  | Nbt.ByteArray data => array_to_snbt (lit "B") false data
  | Nbt.IntArray data => array_to_snbt (lit "I") true data
  | Nbt.LongArray data => array_to_snbt (lit "L") false data
  | Nbt.Compound data =>
      let values :=
        map (fun '(key, val) => key_to_snbt key ++ lit ":" ++ to_snbt val)
            data in
      lit "{" ++ join (lit ",") values ++ lit "}"
  end.

End Grammar.

(** [Compound({"": Int(1)})], with the empty string as its key. *)
Definition empty_key : tag := Nbt.Compound [([], Nbt.Int 1)].

(** A compound whose key, [a], a double quote, [b], needs escaping. *)
Definition quoted_key : tag := Nbt.Compound [([97; 34; 98], Nbt.Int 1)].





(** The first character of a text, if there is one, satisfies [p]. *)
Definition head_is (p : Z -> bool) (s : str) : Prop :=
  match s with
  | [] => True
  | c :: _ => p c = true
  end.



End Snbt.

(** * Proof tactics *)

(** Closing a comparison whose outcome arithmetic decides. *)
Ltac btrue :=
  symmetry; first [apply Z.ltb_lt | apply Z.leb_le | apply Z.eqb_eq]; lia.
Ltac bfalse :=
  symmetry; first [apply Z.ltb_ge | apply Z.leb_gt | apply Z.eqb_neq]; lia.


(** * Lengths *)

Lemma len_cons {A} (a : A) l : len (a :: l) = 1 + len l.
Proof. unfold len. cbn [length]. lia. Qed.

Lemma len_nonneg {A} (l : list A) : 0 <= len l.
Proof. unfold len. lia. Qed.

(** * Properties of the packed arrays *)

Module PackedFacts.
Import Packed.

(** *** Arithmetic of bit positions *)

Lemma loc_div W q p : 0 <= p < W -> (q * W + p) / W = q.
Proof. intros. symmetry. apply (Z.div_unique_pos _ _ q p); lia. Qed.

Lemma loc_mod W q p : 0 <= p < W -> (q * W + p) mod W = p.
Proof. intros. symmetry. apply (Z.mod_unique_pos _ _ q p); lia. Qed.

Lemma wf_nth W ws k : 0 < W -> well_formed W ws -> 0 <= nth k ws 0 < 2 ^ W.
Proof.
  intros HW H. destruct (le_lt_dec (length ws) k).
  - rewrite nth_overflow by lia. split; [lia|]. apply Z.pow_pos_nonneg; lia.
  - unfold well_formed in H. rewrite Forall_forall in H. apply H.
    apply list_elem_of_In. apply nth_In. lia.
Qed.

Lemma testbit_high W w n :
  0 < W -> 0 <= w < 2 ^ W -> W <= n -> Z.testbit w n = false.
Proof.
  intros HW Hw Hn. destruct (Z.eq_dec w 0) as [->|]; [apply Z.bits_0|].
  apply Z.bits_above_log2; [lia|].
  assert (Z.log2 w < W); [|lia]. apply Z.log2_lt_pow2; lia.
Qed.

Lemma width_pos c : 0 < width c.
Proof. destruct c; simpl; lia. Qed.

Lemma norm_index_ok {A} (ws : list A) k :
  0 <= k < len ws -> norm_index ws k = Ok (Z.to_nat k).
Proof.
  intros H. unfold norm_index.
  destruct (k <? 0) eqn:E1; [lia|].
  destruct (k <? 0) eqn:E3; [lia|].
  destruct (len ws <=? k) eqn:E2; [lia|]. reflexivity.
Qed.

Lemma Array_getitem_ok ws k :
  0 <= k < len ws -> Array_getitem ws k = Ok (nth (Z.to_nat k) ws 0).
Proof.
  intros H. unfold Array_getitem. rewrite norm_index_ok by done. simpl.
  destruct (ws !! Z.to_nat k) eqn:E3.
  - f_equal. symmetry. apply nth_lookup_Some with (d := 0) in E3. exact E3.
  - apply lookup_ge_None in E3. unfold len in H. lia.
Qed.

Lemma Array_setitem_ok w ws k x :
  0 <= k < len ws -> 0 <= x < 2 ^ w ->
  Array_setitem w ws k x = Ok (<[Z.to_nat k := x]> ws).
Proof.
  intros H Hx. unfold Array_setitem. rewrite norm_index_ok by done. simpl.
  destruct (x <? 0) eqn:E3; [lia|].
  destruct (2 ^ w <=? x) eqn:E4; [lia|]. reflexivity.
Qed.

Lemma py_shr_ok a n : 0 <= n -> py_shr a n = Ok (Z.shiftr a n).
Proof. intros. unfold py_shr. destruct (n <? 0) eqn:E; [lia|done]. Qed.
Lemma py_shl_ok a n : 0 <= n -> py_shl a n = Ok (Z.shiftl a n).
Proof. intros. unfold py_shl. destruct (n <? 0) eqn:E; [lia|done]. Qed.

Lemma one_shl n : 0 <= n -> Z.shiftl 1 n - 1 = Z.ones n.
Proof. intros. rewrite Z.ones_equiv, Z.shiftl_1_l. lia. Qed.

(** Where slot [i] of width [V] starts. *)
Lemma slot_start W V i :
  0 < W -> 0 <= i -> 0 < V ->
  let s := i * V / W in let o := (i * V) mod W in
  i * V = s * W + o /\ 0 <= o < W /\ 0 <= s.
Proof.
  intros HW Hi HV s o. subst s o.
  pose proof (Z.div_mod (i * V) W ltac:(lia)).
  pose proof (Z.mod_pos_bound (i * V) W HW).
  assert (0 <= i * V / W) by (apply Z.div_pos; nia). lia.
Qed.

(** A read through a view returns the [V] bits of the buffer's bit
    stream that start at bit [i * V]. *)
Lemma getitem_view c l V i st ws :
  st !! l = Some ws -> well_formed (width c) ws -> 0 < V <= width c -> 0 <= i ->
  (i + 1) * V <= width c * len ws ->
  exists v, getitem (mkArrayTag c l (Some V)) i st = (st, Ok v)
            /\ 0 <= v < 2 ^ V
            /\ forall k, 0 <= k < V -> Z.testbit v k = stream_bit (width c) ws (i * V + k).
Proof.
  intros Hst Hwf HV Hi Hlen.
  pose proof (width_pos c) as HW. set (W := width c) in *.
  destruct (slot_start W V i HW Hi ltac:(lia)) as (Hs & Ho & Hs0).
  set (s := i * V / W) in *. set (o := (i * V) mod W) in *.
  assert (Hslen : s < len ws) by nia.
  unfold getitem. cbn [virtual_width cls _storage]. fold W. fold s. fold o.
  replace ((i + 1) * V - 1) with (s * W + (o + V - 1)) by lia.
  unfold mbind, M_bind, bind, arr_get, lift, ret.
  destruct (Z_lt_dec (o + V - 1) W) as [Hin|Hout].
  - (* one word *)
    rewrite (loc_div W s (o + V - 1)) by lia.
    rewrite Z.eqb_refl. rewrite Hst.
    rewrite Array_getitem_ok by lia.
    rewrite py_shr_ok by lia. rewrite py_shl_ok by lia. rewrite one_shl by lia.
    eexists. split; [reflexivity|]. split.
    + rewrite Z.land_ones by lia. apply Z.mod_pos_bound. apply Z.pow_pos_nonneg; lia.
    + intros k Hk. rewrite Z.land_spec, Z.shiftr_spec by lia.
      rewrite Z.testbit_ones_nonneg by lia.
      replace (k <? V) with true by btrue.
      rewrite andb_true_r. unfold stream_bit.
      replace (i * V + k) with (s * W + (o + k)) by lia.
      rewrite (loc_div W), (loc_mod W) by lia.
      f_equal. lia.
  - (* two words *)
    replace (s * W + (o + V - 1)) with ((s + 1) * W + (o + V - 1 - W)) by lia.
    rewrite (loc_div W (s + 1)) by lia.
    replace (s =? s + 1) with false by bfalse.
    assert (s + 1 < len ws) by nia.
    rewrite Hst.
    rewrite Array_getitem_ok by lia.
    rewrite py_shr_ok by lia. rewrite Hst.
    rewrite Array_getitem_ok by lia.
    rewrite !py_shl_ok by lia. rewrite one_shl by lia.
    eexists. split; [reflexivity|]. split.
    + rewrite Z.land_ones by lia. apply Z.mod_pos_bound. apply Z.pow_pos_nonneg; lia.
    + intros k Hk. rewrite Z.land_spec, Z.lor_spec, Z.shiftr_spec by lia.
      rewrite Z.shiftl_spec by lia.
      rewrite Z.testbit_ones_nonneg by lia.
      replace (k <? V) with true by btrue.
      rewrite andb_true_r. unfold stream_bit.
      destruct (Z_lt_dec (o + k) W) as [Hlo|Hhi].
      * replace (i * V + k) with (s * W + (o + k)) by lia.
        rewrite (loc_div W), (loc_mod W) by lia.
        rewrite (Z.testbit_neg_r _ (k - (W - o))) by lia.
        rewrite orb_false_r. f_equal. lia.
      * replace (i * V + k) with ((s + 1) * W + (o + k - W)) by lia.
        rewrite (loc_div W), (loc_mod W) by lia.
        rewrite (testbit_high W) by (try apply wf_nth; auto; lia).
        simpl. f_equal. lia.
Qed.

(** The bits of the two words [__setitem__] stores. *)
Lemma low_word_bits a x V o W p :
  0 <= o -> 0 < V -> 0 <= p < W ->
  Z.testbit
    (Z.land (Z.lor (Z.land a (Z.lnot (Z.shiftl (Z.ones V) o)))
                   (Z.shiftl (Z.land x (Z.ones V)) o)) (Z.ones W)) p
  = if (o <=? p) && (p <? o + V) then Z.testbit x (p - o) else Z.testbit a p.
Proof.
  intros Ho HV Hp.
  rewrite Z.land_spec, Z.lor_spec, Z.land_spec, Z.lnot_spec by lia.
  rewrite !Z.shiftl_spec by lia. rewrite Z.land_spec.
  rewrite (Z.testbit_ones_nonneg W) by lia.
  replace (p <? W) with true by btrue.
  rewrite andb_true_r.
  destruct (Z_le_dec o p) as [H1|H1].
  - rewrite Z.testbit_ones_nonneg by lia.
    replace (o <=? p) with true by btrue.
    destruct (Z_lt_dec p (o + V)) as [H2|H2].
    + replace (p - o <? V) with true by btrue.
      replace (p <? o + V) with true by btrue.
      simpl. rewrite andb_false_r, andb_true_r. reflexivity.
    + replace (p - o <? V) with false by bfalse.
      replace (p <? o + V) with false by bfalse.
      simpl. rewrite andb_true_r, andb_false_r, orb_false_r. reflexivity.
  - replace (o <=? p) with false by bfalse.
    rewrite !(Z.testbit_neg_r _ (p - o)) by lia.
    simpl. rewrite andb_true_r, orb_false_r. reflexivity.
Qed.

Lemma high_word_bits b x V eo j1 W p :
  0 <= j1 -> 0 <= eo -> V = j1 + eo -> 0 <= p < W ->
  Z.testbit
    (Z.land (Z.lor (Z.shiftl (Z.shiftr b j1) j1)
                   (Z.shiftr (Z.land x (Z.ones V)) eo)) (Z.ones W)) p
  = if p <? j1 then Z.testbit x (p + eo) else Z.testbit b p.
Proof.
  intros Hj He HV Hp.
  rewrite Z.land_spec, Z.lor_spec, Z.shiftl_spec by lia.
  rewrite (Z.shiftr_spec (Z.land x (Z.ones V)) eo p) by lia.
  rewrite Z.land_spec.
  rewrite (Z.testbit_ones_nonneg W) by lia.
  rewrite (Z.testbit_ones_nonneg V) by lia.
  replace (p <? W) with true by btrue.
  rewrite andb_true_r.
  destruct (Z_lt_dec p j1) as [H1|H1].
  - replace (p <? j1) with true by btrue.
    replace (p + eo <? V) with true by btrue.
    rewrite Z.testbit_neg_r by lia. simpl. rewrite andb_true_r. reflexivity.
  - replace (p <? j1) with false by bfalse.
    replace (p + eo <? V) with false by bfalse.
    rewrite Z.shiftr_spec by lia. rewrite andb_false_r, orb_false_r.
    f_equal. lia.
Qed.

Lemma land_ones_range a W : 0 <= W -> 0 <= Z.land a (Z.ones W) < 2 ^ W.
Proof.
  intros. rewrite Z.land_ones by lia. apply Z.mod_pos_bound.
  apply Z.pow_pos_nonneg; lia.
Qed.

Lemma nth_insert (ws : list Z) j k x :
  (j < length ws)%nat ->
  nth k (<[j := x]> ws) 0 = if decide (k = j) then x else nth k ws 0.
Proof.
  intros Hj. destruct (decide (k = j)) as [->|Hne].
  - apply nth_lookup_Some. apply list_lookup_insert_eq. done.
  - destruct (ws !! k) eqn:E.
    + rewrite (nth_lookup_Some ws k 0 z E).
      apply nth_lookup_Some. rewrite list_lookup_insert_ne by done. done.
    + apply lookup_ge_None in E.
      rewrite !nth_overflow; rewrite ?length_insert; auto; lia.
Qed.

Lemma wf_insert W ws j x :
  well_formed W ws -> 0 <= x < 2 ^ W -> well_formed W (<[j := x]> ws).
Proof.
  intros Hwf Hx. unfold well_formed in *. apply Forall_insert; auto.
Qed.

(** A write through a view that stays inside one word, or that is made
    on a 64-bit array, completes and replaces exactly the bits of slot
    [i] in the buffer's bit stream. *)
Lemma setitem_view c l V i x st ws :
  st !! l = Some ws -> well_formed (width c) ws -> 0 < V <= width c -> 0 <= i ->
  (i + 1) * V <= width c * len ws ->
  ((i * V) mod width c + V <= width c \/ width c = 64) ->
  exists ws', setitem (mkArrayTag c l (Some V)) i x st = (<[l := ws']> st, Ok tt)
    /\ well_formed (width c) ws' /\ length ws' = length ws
    /\ forall n, 0 <= n -> stream_bit (width c) ws' n =
         if (i * V <=? n) && (n <? (i + 1) * V) then Z.testbit x (n - i * V)
         else stream_bit (width c) ws n.
Proof.
  intros Hst Hwf HV Hi Hlen Hcase.
  pose proof (width_pos c) as HW. set (W := width c) in *.
  destruct (slot_start W V i HW Hi ltac:(lia)) as (Hs & Ho & Hs0).
  set (s := i * V / W) in *. set (o := (i * V) mod W) in *.
  assert (Hslen : s < len ws) by nia.
  unfold setitem. cbn [virtual_width cls _storage]. fold W. fold s. fold o.
  replace ((i + 1) * V - 1) with (s * W + (o + V - 1)) by lia.
  unfold mbind, M_bind, bind, arr_get, arr_set, lift, ret.
  rewrite !py_shl_ok by lia. rewrite !one_shl by lia.
  rewrite Hst. rewrite Array_getitem_ok by lia.
  set (new := Z.land (Z.lor _ _) (Z.ones W)).
  assert (Hnew : 0 <= new < 2 ^ W) by (apply land_ones_range; lia).
  rewrite Hst. rewrite Array_setitem_ok by lia.
  assert (Hsn : (Z.to_nat s < length ws)%nat) by (unfold len in Hslen; lia).
  destruct (Z_lt_dec (o + V - 1) W) as [Hin|Hout].
  - (* one word *)
    rewrite (loc_div W s (o + V - 1)) by lia.
    rewrite Z.eqb_refl. cbn [negb].
    exists (<[Z.to_nat s := new]> ws).
    split; [reflexivity|]. split; [apply wf_insert; auto|].
    split; [apply length_insert|].
    intros n Hn. unfold stream_bit. rewrite nth_insert by done.
    pose proof (Z.div_mod n W ltac:(lia)) as Hdm.
    pose proof (Z.mod_pos_bound n W HW) as Hp.
    assert (0 <= n / W) by (apply Z.div_pos; lia).
    destruct (decide (Z.to_nat (n / W) = Z.to_nat s)) as [Heq|Hne].
    + assert (n / W = s) as Hq by lia. rewrite Hq in Hdm.
      subst new. rewrite low_word_bits by lia.
      replace (i * V <=? n) with (o <=? n mod W).
      2:{ destruct (Z.leb_spec o (n mod W)), (Z.leb_spec (i * V) n); lia. }
      replace (n <? (i + 1) * V) with (n mod W <? o + V).
      2:{ destruct (Z.ltb_spec (n mod W) (o + V)), (Z.ltb_spec n ((i + 1) * V)); lia. }
      replace (n - i * V) with (n mod W - o) by lia.
      rewrite Hq. reflexivity.
    + assert (n / W <> s) as Hq by lia.
      replace ((i * V <=? n) && (n <? (i + 1) * V)) with false; [reflexivity|].
      symmetry. apply andb_false_iff.
      destruct (Z.leb_spec (i * V) n); [|auto]. right. apply Z.ltb_ge. nia.
  - (* two words *)
    assert (HW64 : W = 64) by lia.
    replace (s * W + (o + V - 1)) with ((s + 1) * W + (o + V - 1 - W)) by lia.
    rewrite (loc_div W (s + 1)) by lia.
    replace (s =? s + 1) with false by bfalse.
    cbn [negb].
    assert (Hs1 : s + 1 < len ws) by nia.
    rewrite lookup_insert_eq.
    rewrite Array_getitem_ok by (unfold len in *; rewrite length_insert; lia).
    rewrite py_shr_ok by lia. rewrite py_shl_ok by lia. rewrite py_shr_ok by lia.
    rewrite lookup_insert_eq.
    set (new2 := Z.land (Z.lor _ _) (Z.ones W)).
    assert (Hnew2 : 0 <= new2 < 2 ^ W) by (apply land_ones_range; lia).
    rewrite Array_setitem_ok by (unfold len in *; rewrite ?length_insert; lia).
    rewrite insert_insert_eq.
    exists (<[Z.to_nat (s + 1) := new2]> (<[Z.to_nat s := new]> ws)).
    split; [reflexivity|]. split; [apply wf_insert; auto; apply wf_insert; auto|].
    split; [rewrite !length_insert; done|].
    intros n Hn. unfold stream_bit.
    rewrite nth_insert by (rewrite length_insert; unfold len in *; lia).
    rewrite nth_insert by done.
    pose proof (Z.div_mod n W ltac:(lia)) as Hdm.
    pose proof (Z.mod_pos_bound n W HW) as Hp.
    assert (0 <= n / W) by (apply Z.div_pos; lia).
    destruct (decide (Z.to_nat (n / W) = Z.to_nat (s + 1))) as [Heq|Hne].
    + assert (n / W = s + 1) as Hq by lia. rewrite Hq in Hdm.
      subst new2. rewrite nth_insert by done.
      destruct (decide (Z.to_nat (s + 1) = Z.to_nat s)) as [Hbad|_]; [lia|].
      rewrite (high_word_bits _ x V (64 - o) (V - (64 - o))) by lia.
      destruct (Z.ltb_spec (n mod W) (V - (64 - o))).
      * replace ((i * V <=? n) && (n <? (i + 1) * V)) with true.
        2:{ symmetry. apply andb_true_iff. split; [apply Z.leb_le|apply Z.ltb_lt]; lia. }
        f_equal. lia.
      * replace ((i * V <=? n) && (n <? (i + 1) * V)) with false.
        2:{ symmetry. apply andb_false_iff. right. apply Z.ltb_ge. lia. }
        rewrite Hq. reflexivity.
    + destruct (decide (Z.to_nat (n / W) = Z.to_nat s)) as [Heq|Hne2].
      * assert (n / W = s) as Hq by lia. rewrite Hq in Hdm.
        subst new. rewrite low_word_bits by lia.
        replace (i * V <=? n) with (o <=? n mod W).
        2:{ destruct (Z.leb_spec o (n mod W)), (Z.leb_spec (i * V) n); lia. }
        replace (n <? (i + 1) * V) with true.
        2:{ btrue. }
        replace (n mod W <? o + V) with true.
        2:{ btrue. }
        replace (n - i * V) with (n mod W - o) by lia.
        rewrite Hq. reflexivity.
      * assert (n / W <> s) as Hq by lia. assert (n / W <> s + 1) as Hq' by lia.
        replace ((i * V <=? n) && (n <? (i + 1) * V)) with false; [reflexivity|].
        symmetry. apply andb_false_iff.
        destruct (Z.leb_spec (i * V) n); [|auto]. right. apply Z.ltb_ge. nia.
Qed.

Lemma bits_eq_of_range V a b :
  0 < V -> 0 <= a < 2 ^ V -> 0 <= b < 2 ^ V ->
  (forall k, 0 <= k < V -> Z.testbit a k = Z.testbit b k) -> a = b.
Proof.
  intros HV Ha Hb H. apply Z.bits_inj'. intros k Hk.
  destruct (Z_lt_dec k V); [apply H; lia|].
  rewrite !(testbit_high V) by lia. reflexivity.
Qed.

(** Writing slot [i] through a view, then reading: slot [i] holds the
    value, every other slot is as before. *)
Lemma setitem_getitem c l V i x st ws :
  st !! l = Some ws -> well_formed (width c) ws -> 0 < V <= width c -> 0 <= i ->
  (i + 1) * V <= width c * len ws ->
  ((i * V) mod width c + V <= width c \/ width c = 64) ->
  0 <= x < 2 ^ V ->
  let view := mkArrayTag c l (Some V) in
  exists st', setitem view i x st = (st', Ok tt)
    /\ getitem view i st' = (st', Ok x)
    /\ forall j, 0 <= j -> j <> i -> (j + 1) * V <= width c * len ws ->
         exists r, getitem view j st = (st, Ok r) /\ getitem view j st' = (st', Ok r).
Proof.
  intros Hst Hwf HV Hi Hlen Hcase Hx view.
  destruct (setitem_view c l V i x st ws) as (ws' & Hset & Hwf' & Hlen' & Hbits); auto.
  exists (<[l := ws']> st). split; [exact Hset|].
  assert (Hst' : <[l := ws']> st !! l = Some ws') by apply lookup_insert_eq.
  assert (Hl : len ws' = len ws) by (unfold len; congruence).
  split.
  - destruct (getitem_view c l V i _ ws' Hst' Hwf' HV Hi) as (v & Hget & Hv & Hvb);
      [rewrite Hl; done|].
    unfold view. rewrite Hget. do 2 f_equal.
    apply (bits_eq_of_range V); [lia|done|done|].
    intros k Hk. rewrite Hvb by done. rewrite Hbits by nia.
    replace ((i * V <=? i * V + k) && (i * V + k <? (i + 1) * V)) with true.
    + f_equal. lia.
    + symmetry. apply andb_true_iff. split; [apply Z.leb_le|apply Z.ltb_lt]; lia.
  - intros j Hj Hne Hjlen.
    destruct (getitem_view c l V j _ ws Hst Hwf HV Hj Hjlen) as (r & Hget & Hr & Hrb).
    destruct (getitem_view c l V j _ ws' Hst' Hwf' HV Hj) as (r' & Hget' & Hr' & Hrb');
      [rewrite Hl; done|].
    exists r. split; [exact Hget|]. unfold view. rewrite Hget'. do 2 f_equal.
    apply (bits_eq_of_range V); [lia|done|done|].
    intros k Hk. rewrite Hrb', Hrb by done. rewrite Hbits by nia.
    replace ((i * V <=? j * V + k) && (j * V + k <? (i + 1) * V)) with false; [done|].
    symmetry. apply andb_false_iff.
    destruct (Z_lt_dec j i); [left; apply Z.leb_gt; nia|right; apply Z.ltb_ge; nia].
Qed.

(** On an array narrower than 64 bits a write that crosses a word
    boundary raises, after the first word has been rewritten. *)
Lemma setitem_straddle_raises c l V i x st ws :
  width c <= 32 ->
  st !! l = Some ws -> well_formed (width c) ws -> 0 < V <= width c -> 0 <= i ->
  (i + 1) * V <= width c * len ws ->
  width c < (i * V) mod width c + V ->
  exists st', setitem (mkArrayTag c l (Some V)) i x st = (st', Raise ValueError).
Proof.
  intros Hc Hst Hwf HV Hi Hlen Hout.
  pose proof (width_pos c) as HW. set (W := width c) in *.
  destruct (slot_start W V i HW Hi ltac:(lia)) as (Hs & Ho & Hs0).
  set (s := i * V / W) in *. set (o := (i * V) mod W) in *.
  assert (Hslen : s < len ws) by nia.
  unfold setitem. cbn [virtual_width cls _storage]. fold W. fold s. fold o.
  replace ((i + 1) * V - 1) with ((s + 1) * W + (o + V - 1 - W)) by lia.
  rewrite (loc_div W (s + 1)) by lia.
  replace (s =? s + 1) with false by bfalse.
  cbn [negb].
  unfold mbind, M_bind, bind, arr_get, arr_set, lift, ret.
  rewrite !py_shl_ok by lia. rewrite !one_shl by lia.
  rewrite Hst. rewrite Array_getitem_ok by lia.
  set (new := Z.land (Z.lor _ _) (Z.ones W)).
  assert (Hnew : 0 <= new < 2 ^ W) by (apply land_ones_range; lia).
  rewrite Hst. rewrite Array_setitem_ok by lia.
  assert (Hs1 : s + 1 < len ws) by nia.
  rewrite lookup_insert_eq.
  rewrite Array_getitem_ok by (unfold len in *; rewrite length_insert; lia).
  unfold py_shr at 1.
  replace (V - (64 - o) <? 0) with true by btrue.
  eexists. reflexivity.
Qed.

Lemma call_view a V st st1 v :
  call a V st = (st1, Ok v) ->
  st1 = st /\ v = mkArrayTag (cls a) (_storage a) (Some V).
Proof. unfold call, init, ret. intros [= <- <-]. done. Qed.

Lemma overwrite_word_ok w ws k y :
  0 <= k < len ws -> 0 <= y < 2 ^ w ->
  overwrite_word w ws k y = Ok (<[Z.to_nat k := y]> ws).
Proof.
  intros Hk Hy. unfold overwrite_word, fits.
  destruct (0 <=? y) eqn:E1; [|lia]. destruct (y <? 2 ^ w) eqn:E2; [|lia].
  cbn [andb negb]. destruct (k <? 0) eqn:E3; [lia|].
  destruct (k <? 0) eqn:E3'; [lia|].
  destruct (len ws <? k) eqn:E4; [lia|]. cbn [orb].
  destruct (k =? len ws) eqn:E5; [lia|]. reflexivity.
Qed.

(** On a [LongArray] every in-range write through a view succeeds, the
    slot then reads back the value, and no other slot changes. *)
Lemma LongArray_setitem_getitem l V i x st ws :
  st !! l = Some ws -> well_formed 64 ws -> 2 <= V <= 64 -> 0 <= i ->
  (i + 1) * V <= 64 * len ws -> 0 <= x < 2 ^ V ->
  let view := mkArrayTag LongArray l (Some V) in
  exists st', setitem view i x st = (st', Ok tt)
    /\ getitem view i st' = (st', Ok x)
    /\ forall j, 0 <= j -> j <> i -> (j + 1) * V <= 64 * len ws ->
         exists r, getitem view j st = (st, Ok r)
                   /\ getitem view j st' = (st', Ok r).
Proof.
  intros Hst Hwf HV Hi Hlen Hx.
  apply (setitem_getitem LongArray l V i x st ws); cbn [width]; auto; lia.
Qed.

(** *** [calcsize] *)

(** C4, as stated, fails at [[4]]: the result 2 is one bit short of
    representing 4. *)
Lemma C4_counterexample : ~ calcsize_as_specified [4].
Proof.
  intros H. destruct (H 4 eq_refl) as (w & (Hw2 & Hfit & _) & Hc).
  change (calcsize (IntList [4])) with (Ok (A:=Z) 2) in Hc.
  change (any_negative [4]) with false in Hc. injection Hc as Hc.
  assert (w = 2) by lia. subst w. simpl in Hfit. lia.
Qed.

(** C4 (amended).  For a non-empty list whose largest magnitude [m] is at
    least 1 and at most [2 ^ 48], [calcsize] returns the least width
    [w >= 2] with [m <= 2 ^ w] (room for the [m] magnitudes below [m]),
    plus one when a value is negative; so [calcsize([3]) = 2],
    [calcsize([-1]) = 3], [calcsize([300]) = 9] and
    [calcsize([4]) = 2]. *)
Theorem C4_calcsize_width values m :
  py_max (map Z.abs values) = Ok m -> 1 <= m <= 2 ^ 48 ->
  (exists w, least_width (fun w => m <= 2 ^ w) w
             /\ calcsize (IntList values)
                = Ok (w + if any_negative values then 1 else 0))
  /\ calcsize (IntList [3]) = Ok 2 /\ calcsize (IntList [-1]) = Ok 3
  /\ calcsize (IntList [300]) = Ok 9 /\ calcsize (IntList [4]) = Ok 2.
Proof.
  intros Hmax Hm. split; [|repeat split].
  exists (Z.max (Z.log2_up m) 2).
  split.
  - split; [lia|]. split.
    + destruct (Z.eq_dec m 1) as [->|Hne]; [simpl; lia|].
      pose proof (Z.log2_up_spec m ltac:(lia)) as [_ Hup].
      eapply Z.le_trans; [exact Hup|]. apply Z.pow_le_mono_r; lia.
    + intros w' Hw' Hle.
      destruct (Z.eq_dec m 1) as [->|Hne];
        [change (Z.log2_up 1) with 0; lia|].
      pose proof (Z.log2_up_spec m ltac:(lia)) as [Hlo _].
      destruct (Z_lt_dec w' (Z.log2_up m)) as [Hlt|]; [|lia].
      exfalso. assert (2 ^ w' <= 2 ^ Z.pred (Z.log2_up m)) by (apply Z.pow_le_mono_r; lia).
      lia.
  - unfold calcsize. rewrite Hmax. simpl. unfold ceil_log2.
    destruct (m <=? 0) eqn:E; [lia|].
    destruct (m <=? 2 ^ 48) eqn:E'; [|lia]. simpl. unfold any_negative.
    destruct (existsb _ values); f_equal; lia.
Qed.

Lemma C4_witness :
  py_max (map Z.abs [-300; 7]) = Ok 300 /\ 1 <= 300 <= 2 ^ 48
  /\ exists w, least_width (fun w => 300 <= 2 ^ w) w
               /\ calcsize (IntList [-300; 7]) = Ok (w + 1).
Proof.
  split; [reflexivity|]. split; [lia|].
  exact (proj1 (C4_calcsize_width [-300; 7] 300 eq_refl ltac:(lia))).
Defined.

Lemma fold_max_zero vs : Forall (fun v => v = 0) vs -> fold_left Z.max (map Z.abs vs) 0 = 0.
Proof. induction 1 as [|v vs -> _ IH]; simpl; auto. Qed.

(** C10.  [calcsize] raises for the empty list and for every input whose
    largest magnitude is 0 (a list of zeros, or the integer 0). *)
Theorem C10_calcsize_partial vs :
  Forall (fun v => v = 0) vs ->
  calcsize (IntList vs) = Raise ValueError /\ calcsize (OneInt 0) = Raise ValueError.
Proof.
  intros H. split; [|reflexivity].
  unfold calcsize. destruct H as [|v vs -> H]; [reflexivity|].
  simpl. rewrite fold_max_zero by done. reflexivity.
Qed.

Lemma C10_witness :
  Forall (fun v => v = 0) [0; 0]
  /\ calcsize (IntList [0; 0]) = Raise ValueError
  /\ calcsize (IntList []) = Raise ValueError.
Proof.
  split; [repeat constructor|]. split.
  - exact (proj1 (C10_calcsize_partial [0; 0] ltac:(repeat constructor))).
  - exact (proj1 (C10_calcsize_partial [] ltac:(constructor))).
Defined.

(** *** [pack_list] *)

(** [ceil_div a b] is the ceiling of [a / b]. *)
Lemma ceil_div_spec a b :
  0 < b -> b * (ceil_div a b - 1) < a <= b * ceil_div a b.
Proof.
  intros Hb. unfold ceil_div.
  pose proof (Z.div_mod (- a) b ltac:(lia)).
  pose proof (Z.mod_pos_bound (- a) b Hb). lia.
Qed.

(** C7, as stated, fails at [[1; -1]]: the omitted width is 2, while
    [calcsize] gives 3. *)
Lemma C7_counterexample :
  pack_list LongArray [1; -1] None ∅ <> pack_list_spec LongArray [1; -1] None ∅.
Proof. vm_compute. intros H. discriminate H. Qed.

Lemma map_abs_nonneg values :
  Forall (fun v => 0 <= v) values -> map Z.abs values = values.
Proof.
  induction 1 as [|v vs Hv _ IH]; simpl; [done|].
  rewrite IH. f_equal. lia.
Qed.

Lemma no_negative values :
  Forall (fun v => 0 <= v) values -> existsb (fun x => x <? 0) values = false.
Proof.
  induction 1 as [|v vs Hv _ IH]; simpl; [done|].
  rewrite IH. destruct (v <? 0) eqn:E; [lia|done].
Qed.

Lemma calcsize_nonneg values :
  Forall (fun v => 0 <= v) values ->
  calcsize (IntList values)
  = (mx ← py_max values; lg ← ceil_log2 mx; Ok (Z.max 2 lg)).
Proof.
  intros H. unfold calcsize. rewrite map_abs_nonneg, no_negative by done.
  destruct (py_max values) as [mx|e]; [|done]. simpl.
  destruct (ceil_log2 mx) as [lg|e]; [|done]. simpl.
  rewrite Z.max_comm. done.
Qed.

(** One write through a view, with everything it leaves behind. *)
Lemma setitem_view_full c l V i x st ws :
  st !! l = Some ws -> well_formed (width c) ws -> 0 < V <= width c -> 0 <= i ->
  (i + 1) * V <= width c * len ws ->
  ((i * V) mod width c + V <= width c \/ width c = 64) ->
  0 <= x < 2 ^ V ->
  let view := mkArrayTag c l (Some V) in
  exists ws', setitem view i x st = (<[l := ws']> st, Ok tt)
    /\ well_formed (width c) ws' /\ len ws' = len ws
    /\ getitem view i (<[l := ws']> st) = (<[l := ws']> st, Ok x)
    /\ forall j r, 0 <= j -> j <> i -> (j + 1) * V <= width c * len ws ->
         getitem view j st = (st, Ok r) ->
         getitem view j (<[l := ws']> st) = (<[l := ws']> st, Ok r).
Proof.
  intros Hst Hwf HV Hi Hlen Hcase Hx. cbv zeta.
  destruct (setitem_view c l V i x st ws) as (ws' & Hset & Hwf' & Hlen' & Hbits); auto.
  destruct (setitem_getitem c l V i x st ws) as (st' & E1 & E2 & E3); auto.
  cbv zeta in E1, E2, E3. rewrite Hset in E1. injection E1 as <-.
  exists ws'. split; [exact Hset|]. split; [exact Hwf'|].
  split; [unfold len; congruence|]. split; [exact E2|].
  intros j r Hj Hne Hjlen Hget.
  destruct (E3 j Hj Hne Hjlen) as (r' & G1 & G2).
  rewrite Hget in G1. injection G1 as <-. exact G2.
Qed.

(** The loop of [pack_list] on a [LongArray]: every value written lands
    in its slot, and the slots below the first index keep their
    contents. *)
Lemma write_all_LongArray l V values : forall k st ws,
  st !! l = Some ws -> well_formed 64 ws -> 0 < V <= 64 -> 0 <= k ->
  (k + len values) * V <= 64 * len ws ->
  Forall (fun v => 0 <= v < 2 ^ V) values ->
  let view := mkArrayTag LongArray l (Some V) in
  exists ws', write_all view k values st = (<[l := ws']> st, Ok tt)
    /\ well_formed 64 ws' /\ len ws' = len ws
    /\ (forall j, k <= j < k + len values ->
          getitem view j (<[l := ws']> st)
          = (<[l := ws']> st, Ok (nth (Z.to_nat (j - k)) values 0)))
    /\ (forall j r, 0 <= j < k -> getitem view j st = (st, Ok r) ->
          getitem view j (<[l := ws']> st) = (<[l := ws']> st, Ok r)).
Proof.
  induction values as [|x values IH]; intros k st ws Hst Hwf HV Hk Hcap Hvals;
    cbv zeta in *; set (view := mkArrayTag LongArray l (Some V)) in *.
  - exists ws. cbn [write_all]. unfold ret.
    rewrite insert_id by done. repeat split; auto.
    intros j Hj. unfold len in Hj. simpl in Hj. lia.
  - rewrite len_cons in Hcap. pose proof (Forall_inv Hvals) as Hx.
    pose proof (Forall_inv_tail Hvals) as Hrest.
    assert (Hlenv : 0 <= len values) by (unfold len; lia).
    destruct (setitem_view_full LongArray l V k x st ws)
      as (ws1 & Hset & Hwf1 & Hlen1 & Hread1 & Hkeep1);
      cbn [width]; auto; try nia.
    cbv zeta in Hset, Hread1, Hkeep1. fold view in Hset, Hread1, Hkeep1.
    assert (Hst1 : <[l := ws1]> st !! l = Some ws1) by apply lookup_insert_eq.
    assert (Hcap1 : (k + 1 + len values) * V <= 64 * len ws1)
      by (rewrite Hlen1; nia).
    destruct (IH (k + 1) (<[l := ws1]> st) ws1 Hst1 Hwf1 HV ltac:(lia) Hcap1 Hrest)
      as (ws2 & Hw & Hwf2 & Hlen2 & Hread2 & Hkeep2).
    rewrite insert_insert_eq in *.
    exists ws2. split.
    { cbn [write_all]. unfold mbind, M_bind, bind. rewrite Hset. exact Hw. }
    split; [exact Hwf2|]. split; [lia|]. split.
    + intros j Hj. rewrite len_cons in Hj.
      destruct (Z.eq_dec j k) as [->|Hne].
      * replace (k - k) with 0 by lia. cbn [Z.to_nat nth].
        apply Hkeep2; [lia|exact Hread1].
      * rewrite Hread2 by lia.
        replace (Z.to_nat (j - k)) with (S (Z.to_nat (j - (k + 1)))) by lia.
        reflexivity.
    + intros j r Hj Hget. apply Hkeep2; [lia|].
      apply Hkeep1; auto; try lia. cbn [width].
      assert ((j + 1) * V <= (k + (1 + len values)) * V)
        by (apply Z.mul_le_mono_nonneg_r; lia).
      lia.
Qed.

Lemma zeros_fit W n : 0 < W -> forallb (fits W) (replicate n 0) = true.
Proof.
  intros HW. induction n as [|n IH]; [done|]. cbn [replicate forallb].
  rewrite IH. unfold fits.
  assert (0 < 2 ^ W) by (apply Z.pow_pos_nonneg; lia).
  destruct (0 <=? 0) eqn:E1; [|lia]. destruct (0 <? 2 ^ W) eqn:E2; [done|lia].
Qed.

Lemma zeros_well_formed W n : 0 < W -> well_formed W (replicate n 0).
Proof.
  intros HW. apply Forall_replicate.
  assert (0 < 2 ^ W) by (apply Z.pow_pos_nonneg; lia). lia.
Qed.

(** [pack_list] on a [LongArray] with an explicit width: a fresh buffer
    of [ceil(len(values) * width / 64)] words, in which slot [i] of the
    width-wide view holds [values[i]]. *)
Theorem pack_list_LongArray values w st :
  2 <= w <= 64 -> Forall (fun v => 0 <= v < 2 ^ w) values ->
  exists st' obj ws,
    pack_list LongArray values (Some w) st = (st', Ok obj)
    /\ virtual_width obj = None
    /\ st !! _storage obj = None
    /\ st' = <[_storage obj := ws]> st
    /\ len ws = ceil_div (len values * w) 64
    /\ forall i, 0 <= i < len values ->
         getitem (mkArrayTag LongArray (_storage obj) (Some w)) i st'
         = (st', Ok (nth (Z.to_nat i) values 0)).
Proof.
  intros Hw Hvals.
  set (cap := ceil_div (len values * w) 64).
  assert (Hlenv : 0 <= len values) by (unfold len; lia).
  pose proof (ceil_div_spec (len values * w) 64 ltac:(lia)) as Hcap.
  fold cap in Hcap.
  assert (Hcap0 : 0 <= cap) by nia.
  set (l := fresh (dom st)).
  assert (Hfresh : st !! l = None).
  { apply not_elem_of_dom. apply is_fresh. }
  set (zeros := replicate (Z.to_nat cap) 0).
  set (st1 := <[l := zeros]> st).
  assert (Hzeros : len zeros = cap)
    by (unfold zeros, len; rewrite length_replicate; lia).
  destruct (write_all_LongArray l w values 0 st1 zeros)
    as (ws' & Hwrite & Hwf & Hlen & Hread & _).
  { apply lookup_insert_eq. }
  { apply zeros_well_formed. lia. }
  { lia. }
  { lia. }
  { rewrite Hzeros. lia. }
  { exact Hvals. }
  cbv zeta in Hwrite, Hread. unfold st1 in Hwrite, Hread.
  rewrite insert_insert_eq in Hwrite, Hread.
  exists (<[l := ws']> st), (mkArrayTag LongArray l None), ws'.
  split.
  { unfold pack_list, empty, init, call, init, alloc.
    unfold mbind, M_bind, bind, ret. cbn [width]. fold cap.
    rewrite zeros_fit by lia. fold l. fold zeros. cbn [cls _storage].
    rewrite Hwrite. reflexivity. }
  cbn [virtual_width _storage].
  split; [done|]. split; [exact Hfresh|]. split; [done|]. split.
  { rewrite Hlen. exact Hzeros. }
  intros i Hi. rewrite Hread by lia. do 3 f_equal. lia.
Qed.

(** *** Views *)

(** C1 fails on the code.  On a [ByteArray] of two words, writing 5
    at index 2 of a 3-bit view (bits 6 to 8, across the two words)
    raises [ValueError] after the first word alone has been rewritten:
    the second half shifts by [V - (64 - start_bit_offset)], which is
    negative on any backing width below 64. *)
Theorem C1_narrow_view_write_across_words_raises :
  exists st,
    (a ← empty ByteArray 2; v ← call a 3; setitem v 2 5) ∅ = (st, Raise ValueError)
    /\ st !! 0%nat = Some [64; 0].
Proof. eexists. split; vm_compute; reflexivity. Qed.


(** *** Reads and writes through a view *)

Lemma divides_no_cross W V i :
  0 < V -> 0 < W -> W mod V = 0 -> (i * V) mod W + V <= W.
Proof.
  intros HV HW Hdiv.
  apply Z.mod_divide in Hdiv; [|lia]. destruct Hdiv as [q Hq].
  assert (0 < q) by nia.
  rewrite Hq. rewrite Z.mul_mod_distr_r by lia.
  pose proof (Z.mod_pos_bound i q ltac:(lia)). nia.
Qed.

Lemma no_straddle_case c V i :
  no_straddle c V -> 0 < V ->
  (i * V) mod width c + V <= width c \/ width c = 64.
Proof.
  intros [Hd| ->] HV; [left|right; reflexivity].
  apply divides_no_cross; auto. apply width_pos.
Qed.

Lemma setitem_view_read c l V i x st ws :
  st !! l = Some ws -> well_formed (width c) ws -> 0 < V <= width c -> 0 <= i ->
  (i + 1) * V <= width c * len ws ->
  ((i * V) mod width c + V <= width c \/ width c = 64) ->
  let view := mkArrayTag c l (Some V) in
  exists ws', setitem view i x st = (<[l := ws']> st, Ok tt)
    /\ well_formed (width c) ws' /\ len ws' = len ws
    /\ getitem view i (<[l := ws']> st) = (<[l := ws']> st, Ok (x mod 2 ^ V))
    /\ forall j r, 0 <= j -> j <> i -> (j + 1) * V <= width c * len ws ->
         getitem view j st = (st, Ok r) ->
         getitem view j (<[l := ws']> st) = (<[l := ws']> st, Ok r).
Proof.
  intros Hst Hwf HV Hi Hlen Hcase. cbv zeta.
  destruct (setitem_view c l V i x st ws) as (ws' & Hset & Hwf' & Hlen' & Hbits); auto.
  assert (Hst' : <[l := ws']> st !! l = Some ws') by apply lookup_insert_eq.
  assert (Hl : len ws' = len ws) by (unfold len; congruence).
  assert (H2V : 0 < 2 ^ V) by (apply Z.pow_pos_nonneg; lia).
  exists ws'. split; [exact Hset|]. split; [exact Hwf'|]. split; [exact Hl|].
  split.
  - destruct (getitem_view c l V i _ ws' Hst' Hwf' HV Hi) as (v & Hget & Hv & Hvb);
      [rewrite Hl; done|].
    rewrite Hget. do 2 f_equal.
    apply (bits_eq_of_range V); [lia|done|apply Z.mod_pos_bound; done|].
    intros k Hk. rewrite Hvb by done. rewrite Hbits by nia.
    replace ((i * V <=? i * V + k) && (i * V + k <? (i + 1) * V)) with true.
    + rewrite Z.mod_pow2_bits_low by lia. f_equal. lia.
    + symmetry. apply andb_true_iff. split; [apply Z.leb_le|apply Z.ltb_lt]; lia.
  - intros j r Hj Hne Hjlen Hgetj.
    destruct (getitem_view c l V j _ ws Hst Hwf HV Hj Hjlen) as (r0 & Hget & Hr & Hrb).
    rewrite Hget in Hgetj. injection Hgetj as <-.
    destruct (getitem_view c l V j _ ws' Hst' Hwf' HV Hj) as (r' & Hget' & Hr' & Hrb');
      [rewrite Hl; done|].
    rewrite Hget'. do 2 f_equal.
    apply (bits_eq_of_range V); [lia|done|done|].
    intros k Hk. rewrite Hrb', Hrb by done. rewrite Hbits by nia.
    replace ((i * V <=? j * V + k) && (j * V + k <? (i + 1) * V)) with false; [done|].
    symmetry. apply andb_false_iff.
    destruct (Z_lt_dec j i); [left; apply Z.leb_gt; nia|right; apply Z.ltb_ge; nia].
Qed.

Lemma nth_mod_default (values : list Z) n V :
  nth n (map (fun v => v mod 2 ^ V) values) 0 = nth n values 0 mod 2 ^ V.
Proof.
  revert n. induction values as [|v vs IH]; intros [|n]; simpl; auto.
Qed.

Lemma write_all_view c l V values : forall k st ws,
  st !! l = Some ws -> well_formed (width c) ws -> 0 < V <= width c -> 0 <= k ->
  (k + len values) * V <= width c * len ws ->
  no_straddle c V ->
  let view := mkArrayTag c l (Some V) in
  exists ws', write_all view k values st = (<[l := ws']> st, Ok tt)
    /\ well_formed (width c) ws' /\ len ws' = len ws
    /\ (forall j, k <= j < k + len values ->
          getitem view j (<[l := ws']> st)
          = (<[l := ws']> st, Ok (nth (Z.to_nat (j - k)) values 0 mod 2 ^ V)))
    /\ (forall j r, 0 <= j < k -> getitem view j st = (st, Ok r) ->
          getitem view j (<[l := ws']> st) = (<[l := ws']> st, Ok r)).
Proof.
  induction values as [|x values IH]; intros k st ws Hst Hwf HV Hk Hcap Hns;
    cbv zeta in *; set (view := mkArrayTag c l (Some V)) in *.
  - exists ws. cbn [write_all]. unfold ret.
    rewrite insert_id by done. repeat split; auto.
    intros j Hj. unfold len in Hj. simpl in Hj. lia.
  - rewrite len_cons in Hcap.
    assert (Hlenv : 0 <= len values) by (unfold len; lia).
    destruct (setitem_view_read c l V k x st ws)
      as (ws1 & Hset & Hwf1 & Hlen1 & Hread1 & Hkeep1); auto; try nia.
    { apply no_straddle_case; auto; lia. }
    cbv zeta in Hset, Hread1, Hkeep1. fold view in Hset, Hread1, Hkeep1.
    assert (Hst1 : <[l := ws1]> st !! l = Some ws1) by apply lookup_insert_eq.
    assert (Hcap1 : (k + 1 + len values) * V <= width c * len ws1)
      by (rewrite Hlen1; nia).
    destruct (IH (k + 1) (<[l := ws1]> st) ws1 Hst1 Hwf1 HV ltac:(lia) Hcap1 Hns)
      as (ws2 & Hw & Hwf2 & Hlen2 & Hread2 & Hkeep2).
    rewrite insert_insert_eq in *.
    exists ws2. split.
    { cbn [write_all]. unfold mbind, M_bind, bind. rewrite Hset. exact Hw. }
    split; [exact Hwf2|]. split; [lia|]. split.
    + intros j Hj. rewrite len_cons in Hj.
      destruct (Z.eq_dec j k) as [->|Hne].
      * replace (k - k) with 0 by lia. cbn [Z.to_nat nth].
        apply Hkeep2; [lia|exact Hread1].
      * rewrite Hread2 by lia.
        replace (Z.to_nat (j - k)) with (S (Z.to_nat (j - (k + 1)))) by lia.
        reflexivity.
    + intros j r Hj Hget. apply Hkeep2; [lia|].
      apply Hkeep1; auto; try lia.
      assert ((j + 1) * V <= (k + (1 + len values)) * V)
        by (apply Z.mul_le_mono_nonneg_r; lia).
      lia.
Qed.

Lemma Array_getitem_past ws k :
  len ws <= k -> Array_getitem ws k = Raise IndexError.
Proof.
  intros H. pose proof (len_nonneg ws). unfold Array_getitem, norm_index.
  destruct (k <? 0) eqn:E1; [lia|].
  destruct (k <? 0) eqn:E3; [lia|].
  destruct (len ws <=? k) eqn:E2; [reflexivity|lia].
Qed.

(** X1.  [__getitem__] through a view of width [V <= W]: for a slot that
    lies inside the buffer the result is the unsigned integer on the
    [V] bits of the buffer's bit stream from bit [i * V] (bit [n] of the
    stream being bit [n mod W] of word [n / W]), whether the slot lies in
    one word or across two; for a slot that reaches past the last word
    the read raises [IndexError].  The buffer is never changed. *)
Theorem view_read_bits_or_IndexError c l V i st ws :
  st !! l = Some ws -> well_formed (width c) ws -> 0 < V <= width c -> 0 <= i ->
  let view := mkArrayTag c l (Some V) in
  ((i + 1) * V <= width c * len ws ->
   exists v, getitem view i st = (st, Ok v) /\ 0 <= v < 2 ^ V
     /\ forall k, 0 <= k < V ->
          Z.testbit v k = stream_bit (width c) ws (i * V + k))
  /\ (width c * len ws < (i + 1) * V ->
      getitem view i st = (st, Raise IndexError)).
Proof.
  intros Hst Hwf HV Hi. cbv zeta. split.
  - intros Hlen. apply getitem_view; auto.
  - intros Hlen.
    pose proof (width_pos c) as HW. set (W := width c) in *.
    destruct (slot_start W V i HW Hi ltac:(lia)) as (Hs & Ho & Hs0).
    set (s := i * V / W) in *. set (o := (i * V) mod W) in *.
    unfold getitem. cbn [virtual_width cls _storage]. fold W. fold s. fold o.
    replace ((i + 1) * V - 1) with (s * W + (o + V - 1)) by lia.
    unfold mbind, M_bind, bind, arr_get, lift, ret.
    destruct (Z_lt_dec (o + V - 1) W) as [Hin|Hout].
    + rewrite (loc_div W s (o + V - 1)) by lia.
      rewrite Z.eqb_refl. rewrite Hst.
      rewrite Array_getitem_past by nia. reflexivity.
    + replace (s * W + (o + V - 1)) with ((s + 1) * W + (o + V - 1 - W)) by lia.
      rewrite (loc_div W (s + 1)) by lia.
      replace (s =? s + 1) with false by bfalse.
      rewrite Hst.
      destruct (Z_lt_dec s (len ws)) as [Hs1|Hs1].
      * rewrite Array_getitem_ok by lia.
        rewrite py_shr_ok by lia. rewrite Hst.
        rewrite Array_getitem_past by nia. reflexivity.
      * rewrite Array_getitem_past by lia. reflexivity.
Qed.

(** X2.  [__setitem__] then [__getitem__] through a view whose slots do
    not cross words (the width divides the word width) or that lies on
    a [LongArray]: the write completes for every integer [x], slot [i]
    then reads [x mod 2 ^ V] (so [x] itself when [0 <= x < 2 ^ V]: the
    value is masked, never rejected), and every other slot reads what
    it read before. *)
Theorem view_write_then_read c l V i x st ws :
  st !! l = Some ws -> well_formed (width c) ws -> 0 < V <= width c ->
  no_straddle c V -> 0 <= i -> (i + 1) * V <= width c * len ws ->
  let view := mkArrayTag c l (Some V) in
  exists st', setitem view i x st = (st', Ok tt)
    /\ getitem view i st' = (st', Ok (x mod 2 ^ V))
    /\ (0 <= x < 2 ^ V -> getitem view i st' = (st', Ok x))
    /\ forall j, 0 <= j -> j <> i -> (j + 1) * V <= width c * len ws ->
         exists r, getitem view j st = (st, Ok r)
                   /\ getitem view j st' = (st', Ok r).
Proof.
  intros Hst Hwf HV Hns Hi Hlen. cbv zeta.
  destruct (setitem_view_read c l V i x st ws)
    as (ws' & Hset & Hwf' & Hlen' & Hread & Hkeep); auto.
  { apply no_straddle_case; auto; lia. }
  cbv zeta in Hset, Hread, Hkeep.
  exists (<[l := ws']> st). split; [exact Hset|]. split; [exact Hread|]. split.
  - intros Hx. rewrite Hread. rewrite Z.mod_small by lia. reflexivity.
  - intros j Hj Hne Hjlen.
    destruct (getitem_view c l V j st ws Hst Hwf HV Hj Hjlen) as (r & Hget & _).
    exists r. split; [exact Hget|]. apply Hkeep; auto.
Qed.

(** X3.  On a [ByteArray] or an [IntArray], [__setitem__] on a slot
    that crosses a word boundary raises [ValueError] (a negative shift
    count) for every value, after it has stored the low bits of the
    value in the first word: the bits of the slot up to the word
    boundary hold the value, every other bit of the buffer is as
    before, and the part of the value beyond the boundary is lost. *)
Theorem view_write_crossing_words c l V i x st ws :
  c <> LongArray ->
  st !! l = Some ws -> well_formed (width c) ws -> 0 < V <= width c -> 0 <= i ->
  (i + 1) * V <= width c * len ws ->
  width c < (i * V) mod width c + V ->
  exists ws',
    setitem (mkArrayTag c l (Some V)) i x st = (<[l := ws']> st, Raise ValueError)
    /\ len ws' = len ws
    /\ forall n, 0 <= n ->
         stream_bit (width c) ws' n
         = if (i * V <=? n) && (n <? (i * V / width c + 1) * width c)
           then Z.testbit x (n - i * V)
           else stream_bit (width c) ws n.
Proof.
  intros Hc Hst Hwf HV Hi Hlen Hout.
  assert (Hc32 : width c <= 32) by (destruct c; cbn [width]; try lia; done).
  pose proof (width_pos c) as HW. set (W := width c) in *.
  destruct (slot_start W V i HW Hi ltac:(lia)) as (Hs & Ho & Hs0).
  set (s := i * V / W) in *. set (o := (i * V) mod W) in *.
  assert (Hslen : s < len ws) by nia.
  unfold setitem. cbn [virtual_width cls _storage]. fold W. fold s. fold o.
  replace ((i + 1) * V - 1) with ((s + 1) * W + (o + V - 1 - W)) by lia.
  rewrite (loc_div W (s + 1)) by lia.
  replace (s =? s + 1) with false by bfalse.
  cbn [negb].
  unfold mbind, M_bind, bind, arr_get, arr_set, lift, ret.
  rewrite !py_shl_ok by lia. rewrite !one_shl by lia.
  rewrite Hst. rewrite Array_getitem_ok by lia.
  set (new := Z.land (Z.lor _ _) (Z.ones W)).
  assert (Hnew : 0 <= new < 2 ^ W) by (apply land_ones_range; lia).
  rewrite Hst. rewrite Array_setitem_ok by lia.
  assert (Hs1 : s + 1 < len ws) by nia.
  rewrite lookup_insert_eq.
  rewrite Array_getitem_ok by (unfold len in *; rewrite length_insert; lia).
  unfold py_shr at 1.
  replace (V - (64 - o) <? 0) with true by btrue.
  assert (Hsn : (Z.to_nat s < length ws)%nat) by (unfold len in Hslen; lia).
  exists (<[Z.to_nat s := new]> ws). split; [reflexivity|].
  split; [unfold len; rewrite length_insert; reflexivity|].
  intros n Hn. unfold stream_bit. rewrite nth_insert by done.
  pose proof (Z.div_mod n W ltac:(lia)) as Hdm.
  pose proof (Z.mod_pos_bound n W HW) as Hp.
  assert (0 <= n / W) by (apply Z.div_pos; lia).
  destruct (decide (Z.to_nat (n / W) = Z.to_nat s)) as [Heq|Hne].
  - assert (n / W = s) as Hq by lia. rewrite Hq in Hdm.
    subst new. rewrite low_word_bits by lia.
    replace (i * V <=? n) with (o <=? n mod W).
    2:{ destruct (Z.leb_spec o (n mod W)), (Z.leb_spec (i * V) n); lia. }
    replace (n <? (s + 1) * W) with true by btrue.
    replace (n mod W <? o + V) with true by btrue.
    replace (n - i * V) with (n mod W - o) by lia.
    rewrite Hq. reflexivity.
  - assert (n / W <> s) as Hq by lia.
    replace ((i * V <=? n) && (n <? (s + 1) * W)) with false; [reflexivity|].
    symmetry. apply andb_false_iff.
    destruct (Z.leb_spec (i * V) n); [|auto]. right. apply Z.ltb_ge. nia.
Qed.

(** The body of [pack_list] once the width is known. *)
Lemma pack_list_at_width c values w st :
  0 < w <= width c -> no_straddle c w ->
  exists ws,
    let l := fresh (dom st) in
    (obj ← empty c (ceil_div (len values * w) (width c));
     view ← call obj w;
     write_all view 0 values;;
     ret obj) st = (<[l := ws]> st, Ok (mkArrayTag c l None))
    /\ st !! l = None
    /\ well_formed (width c) ws
    /\ len ws = ceil_div (len values * w) (width c)
    /\ forall i, 0 <= i < len values ->
         getitem (mkArrayTag c l (Some w)) i (<[l := ws]> st)
         = (<[l := ws]> st, Ok (nth (Z.to_nat i) values 0 mod 2 ^ w)).
Proof.
  intros Hw Hns. cbv zeta.
  pose proof (width_pos c) as HW.
  set (cap := ceil_div (len values * w) (width c)).
  assert (Hlenv : 0 <= len values) by (unfold len; lia).
  pose proof (ceil_div_spec (len values * w) (width c) HW) as Hcap.
  fold cap in Hcap.
  assert (Hcap0 : 0 <= cap) by nia.
  set (l := fresh (dom st)).
  assert (Hfresh : st !! l = None).
  { apply not_elem_of_dom. apply is_fresh. }
  set (zeros := replicate (Z.to_nat cap) 0).
  set (st1 := <[l := zeros]> st).
  assert (Hzeros : len zeros = cap)
    by (unfold zeros, len; rewrite length_replicate; lia).
  destruct (write_all_view c l w values 0 st1 zeros)
    as (ws' & Hwrite & Hwf & Hlen & Hread & _).
  { apply lookup_insert_eq. }
  { apply zeros_well_formed. lia. }
  { lia. }
  { lia. }
  { rewrite Hzeros. lia. }
  { exact Hns. }
  cbv zeta in Hwrite, Hread. unfold st1 in Hwrite, Hread.
  rewrite insert_insert_eq in Hwrite, Hread.
  exists ws'. split.
  { unfold empty, init, call, init, alloc.
    unfold mbind, M_bind, bind, ret. fold cap.
    rewrite zeros_fit by lia. fold l. fold zeros. cbn [cls _storage].
    rewrite Hwrite. reflexivity. }
  split; [exact Hfresh|]. split; [exact Hwf|]. split.
  { rewrite Hlen. exact Hzeros. }
  intros i Hi. rewrite Hread by lia. replace (i - 0) with i by lia. reflexivity.
Qed.

(** *** [pack_list] and views, from the writes *)

(** The width that [pack_list] takes when none is given. *)
Lemma pack_list_omitted c values mx st :
  py_max values = Ok mx -> 1 <= mx <= 2 ^ 48 ->
  pack_list c values None st
  = pack_list c values (Some (Z.max 2 (Z.log2_up mx))) st.
Proof.
  intros Hmax Hmx.
  assert (E : (mx' ← py_max values; lg ← ceil_log2 mx'; Ok (Z.max 2 lg))
              = Ok (Z.max 2 (Z.log2_up mx))).
  { rewrite Hmax. cbn [mbind result_bind rbind]. unfold ceil_log2.
    destruct (mx <=? 0) eqn:E; [lia|].
    destruct (mx <=? 2 ^ 48) eqn:E'; [|lia]. reflexivity. }
  unfold pack_list. rewrite E. reflexivity.
Qed.

Lemma log2_up_room mx : 1 <= mx -> mx <= 2 ^ Z.max 2 (Z.log2_up mx).
Proof.
  intros Hmx.
  destruct (Z.eq_dec mx 1) as [->|Hne]; [simpl; lia|].
  pose proof (Z.log2_up_spec mx ltac:(lia)) as [_ Hup].
  eapply Z.le_trans; [exact Hup|]. apply Z.pow_le_mono_r; lia.
Qed.

(** The loop of [pack_list] stops with [ValueError] at the first slot
    that crosses a word of a [ByteArray] or an [IntArray]. *)
Lemma write_all_crossing c l V values : forall k st ws,
  width c <= 32 ->
  st !! l = Some ws -> well_formed (width c) ws -> 0 < V <= width c -> 0 <= k ->
  (k + len values) * V <= width c * len ws ->
  (exists j, 0 <= j < len values /\ width c < ((k + j) * V) mod width c + V) ->
  exists st', write_all (mkArrayTag c l (Some V)) k values st
              = (st', Raise ValueError).
Proof.
  induction values as [|x values IH]; intros k st ws Hc Hst Hwf HV Hk Hcap (j & Hj & Hcross).
  - unfold len in Hj. simpl in Hj. lia.
  - rewrite len_cons in Hcap, Hj.
    assert (Hlenv : 0 <= len values) by (unfold len; lia).
    cbn [write_all]. unfold mbind, M_bind, bind.
    destruct (Z_lt_dec (width c) ((k * V) mod width c + V)) as [Hnow|Hlater].
    + destruct (setitem_straddle_raises c l V k x st ws) as [st' E]; auto; try nia.
      rewrite E. eauto.
    + assert (Hin : (k + 1) * V <= width c * len ws) by nia.
      assert (Hcase : (k * V) mod width c + V <= width c \/ width c = 64)
        by (left; lia).
      destruct (setitem_view_read c l V k x st ws Hst Hwf HV Hk Hin Hcase)
        as (ws1 & Hset & Hwf1 & Hlen1 & _).
      cbv zeta in Hset. rewrite Hset.
      assert (j <> 0) by (intros ->; replace (k + 0) with k in Hcross by lia; lia).
      assert (Hst1 : <[l := ws1]> st !! l = Some ws1) by apply lookup_insert_eq.
      assert (Hcap1 : (k + 1 + len values) * V <= width c * len ws1)
        by (rewrite Hlen1; nia).
      apply (IH (k + 1) (<[l := ws1]> st) ws1 Hc Hst1 Hwf1 HV ltac:(lia) Hcap1).
      exists (j - 1). split; [lia|].
      replace (k + 1 + (j - 1)) with (k + j) by lia. exact Hcross.
Qed.

Lemma pack_list_crossing c values w i st :
  c <> LongArray -> 0 < w <= width c -> 0 <= i < len values ->
  width c < (i * w) mod width c + w ->
  exists st', pack_list c values (Some w) st = (st', Raise ValueError).
Proof.
  intros Hc Hw Hi Hcross.
  pose proof (width_pos c) as HW.
  assert (Hc32 : width c <= 32) by (destruct c; cbn [width]; try lia; congruence).
  set (cap := ceil_div (len values * w) (width c)).
  assert (Hlenv : 0 <= len values) by (unfold len; lia).
  pose proof (ceil_div_spec (len values * w) (width c) HW) as Hcap.
  fold cap in Hcap.
  assert (Hcap0 : 0 <= cap) by nia.
  set (l := fresh (dom st)).
  set (zeros := replicate (Z.to_nat cap) 0).
  assert (Hzeros : len zeros = cap)
    by (unfold zeros, len; rewrite length_replicate; lia).
  assert (Hst1 : <[l := zeros]> st !! l = Some zeros) by apply lookup_insert_eq.
  assert (Hwf : well_formed (width c) zeros) by (apply zeros_well_formed; lia).
  assert (Hroom : (0 + len values) * w <= width c * len zeros)
    by (rewrite Hzeros; lia).
  destruct (write_all_crossing c l w values 0 (<[l := zeros]> st) zeros
              Hc32 Hst1 Hwf Hw ltac:(lia) Hroom) as [st' Hwrite].
  { exists i. split; [lia|]. exact Hcross. }
  exists st'.
  unfold pack_list, empty, init, call, init, alloc.
  unfold mbind, M_bind, bind, ret. fold cap.
  rewrite zeros_fit by lia. fold l. fold zeros. cbn [cls _storage].
  rewrite Hwrite. reflexivity.
Qed.

(** C7 (amended).  With the width omitted [pack_list] packs at the
    width [max(2, ceil(log2(max(values))))], which is what
    [calcsize(values)] gives for a list without negative values, so
    that for those lists it is [pack_list] at the width
    [calcsize(values)] and fails as [calcsize] does.  At a width [w]
    whose slots do not cross words, or on a [LongArray], it returns a
    new array on a buffer of its own of [ceil(len(values) * w / W)]
    words, the least number that holds every slot, and slot [i] of
    the [w]-wide view holds [values[i] mod 2 ^ w].  On a [ByteArray] or
    an [IntArray], when the slot of some value crosses a word, it
    raises [ValueError]. *)
Theorem C7_pack_list c values st :
  (forall mx, py_max values = Ok mx -> 1 <= mx <= 2 ^ 48 ->
     let w := Z.max 2 (Z.log2_up mx) in
     pack_list c values None st = pack_list c values (Some w) st
     /\ mx <= 2 ^ w)
  /\ (Forall (fun v => 0 <= v) values ->
      pack_list c values None st = pack_list_spec c values None st)
  /\ (forall w, 0 < w <= width c -> no_straddle c w ->
      exists obj ws,
        let st' := <[_storage obj := ws]> st in
        pack_list c values (Some w) st = (st', Ok obj)
        /\ cls obj = c /\ virtual_width obj = None
        /\ st !! _storage obj = None
        /\ len ws = ceil_div (len values * w) (width c)
        /\ width c * (len ws - 1) < len values * w <= width c * len ws
        /\ forall i, 0 <= i < len values ->
             getitem (mkArrayTag c (_storage obj) (Some w)) i st'
             = (st', Ok (nth (Z.to_nat i) values 0 mod 2 ^ w)))
  /\ (forall w i, c <> LongArray -> 0 < w <= width c -> 0 <= i < len values ->
      width c < (i * w) mod width c + w ->
      exists st', pack_list c values (Some w) st = (st', Raise ValueError)).
Proof.
  split; [|split; [|split]].
  - intros mx Hmax Hmx. cbv zeta. split.
    + apply pack_list_omitted; assumption.
    + apply log2_up_room. lia.
  - intros H. unfold pack_list, pack_list_spec.
    rewrite calcsize_nonneg by done. reflexivity.
  - intros w Hw Hns.
    destruct (pack_list_at_width c values w st Hw Hns)
      as (ws & Hp & Hfresh & Hwfw & Hlen & Hread).
    cbv zeta in Hp, Hfresh, Hlen, Hread.
    exists (mkArrayTag c (fresh (dom st)) None), ws.
    cbv zeta. cbn [cls virtual_width _storage].
    split; [exact Hp|]. repeat (split; [done|]).
    split; [|exact Hread].
    rewrite Hlen. apply ceil_div_spec. apply width_pos.
  - intros w i. apply pack_list_crossing.
Qed.

Lemma C7_witness :
  exists obj ws,
    pack_list LongArray [0; 1; 2; 3; 4] None ∅ = (<[_storage obj := ws]> ∅, Ok obj)
    /\ len ws = 1
    /\ getitem (mkArrayTag LongArray (_storage obj) (Some 2)) 3 (<[_storage obj := ws]> ∅)
       = (<[_storage obj := ws]> ∅, Ok 3)
    /\ getitem (mkArrayTag LongArray (_storage obj) (Some 2)) 4 (<[_storage obj := ws]> ∅)
       = (<[_storage obj := ws]> ∅, Ok 0).
Proof.
  destruct (C7_pack_list LongArray [0; 1; 2; 3; 4] ∅) as (Hw & _ & Hp & _).
  destruct (Hw 4 eq_refl ltac:(lia)) as [Hnone _].
  destruct (Hp 2 ltac:(vm_compute; intuition congruence) (or_intror eq_refl))
    as (obj & ws & Hpack & _ & _ & _ & Hlen & _ & Hread).
  exists obj, ws. split; [rewrite Hnone; exact Hpack|].
  split; [exact Hlen|]. split.
  - exact (Hread 3 ltac:(vm_compute; intuition congruence)).
  - exact (Hread 4 ltac:(vm_compute; intuition congruence)).
Defined.

(** C8, as stated, fails for a value that does not fit the view and
    for a slot across two words of a narrow array: on a [ByteArray] of
    two zero words, [a(4)[1] = 31] leaves 15 in slot 1, and
    [a(3)[2] = 5] raises. *)
Lemma C8_counterexample :
  ~ view_write_as_specified (mkArrayTag ByteArray 0%nat None) 4 1 31 demo_store
  /\ ~ view_write_as_specified (mkArrayTag ByteArray 0%nat None) 3 2 5 demo_store.
Proof.
  split; intros H.
  - destruct (H _ _ eq_refl) as (st2 & Hset & Hread).
    vm_compute in Hset. injection Hset as <-.
    specialize (Hread _ _ eq_refl). vm_compute in Hread. discriminate Hread.
  - destruct (H _ _ eq_refl) as (st2 & Hset & _).
    vm_compute in Hset. discriminate Hset.
Qed.

(** C8 (amended).  A view [v = a(V)] holds [a]'s own buffer: creating
    it allocates nothing.  For a slot [i] of the buffer that lies in
    one word, or on a [LongArray], [v[i] = x] is done for every integer
    [x]; a width-[V] read of [a]'s buffer at [i] then yields
    [x mod 2 ^ V], which is [x] when [0 <= x < 2 ^ V], and [a]'s own
    word carries the bits of [x].  A write [a[k] = y] through the array
    of a [y] that fits the word shows in every slot of [v] that lies
    in word [k]; a [y] that does not fit raises and changes nothing. *)
Theorem C8_view_aliases_storage a V v st st1 ws i x :
  virtual_width a = None ->
  st !! _storage a = Some ws -> well_formed (width (cls a)) ws ->
  call a V st = (st1, Ok v) ->
  0 < V <= width (cls a) -> 0 <= i ->
  (i + 1) * V <= width (cls a) * len ws ->
  ((i * V) mod width (cls a) + V <= width (cls a) \/ cls a = LongArray) ->
  (_storage v = _storage a /\ st1 = st)
  /\ (exists st2, setitem v i x st1 = (st2, Ok tt)
        /\ (forall v' st3, call a V st2 = (st3, Ok v') ->
              getitem v' i st3 = (st3, Ok (x mod 2 ^ V))
              /\ (0 <= x < 2 ^ V -> getitem v' i st3 = (st3, Ok x)))
        /\ exists w, getitem a (i * V / width (cls a)) st2 = (st2, Ok w)
             /\ forall b, 0 <= b < V ->
                  (i * V) mod width (cls a) + b < width (cls a) ->
                  Z.testbit w ((i * V) mod width (cls a) + b) = Z.testbit x b)
  /\ (forall k y, 0 <= k < len ws ->
        (0 <= y < 2 ^ width (cls a) ->
         exists st3, setitem a k y st1 = (st3, Ok tt)
           /\ forall j b, 0 <= j -> (j + 1) * V <= width (cls a) * len ws ->
                0 <= b < V -> (j * V + b) / width (cls a) = k ->
                exists r, getitem v j st3 = (st3, Ok r)
                  /\ Z.testbit r b = Z.testbit y ((j * V + b) mod width (cls a)))
        /\ (~ 0 <= y < 2 ^ width (cls a) ->
            setitem a k y st1 = (st1, Raise ValueError))).
Proof.
  intros Hnat Hst Hwf Hcall [HV HVW] Hi Hlen Hslot.
  destruct a as [c l vw]. cbn [cls _storage virtual_width] in *. subst vw.
  apply call_view in Hcall as (-> & ->). cbn [cls _storage] in *.
  pose proof (width_pos c) as HW.
  split; [done|].
  assert (Hcase : (i * V) mod width c + V <= width c \/ width c = 64).
  { destruct Hslot as [H| ->]; [by left|by right]. }
  destruct (setitem_view c l V i x st ws) as (ws' & Hset' & Hwf' & Hlen' & Hbits);
    auto; try lia.
  destruct (setitem_view_read c l V i x st ws Hst Hwf ltac:(lia) Hi Hlen Hcase)
    as (ws1 & Hset1 & _ & _ & Hread & _).
  cbv zeta in Hset1, Hread. rewrite Hset' in Hset1. injection Hset1 as Hws.
  assert (Hst' : <[l := ws']> st !! l = Some ws') by apply lookup_insert_eq.
  assert (Hl : len ws' = len ws) by (unfold len; congruence).
  split.
  - exists (<[l := ws']> st). split; [exact Hset'|]. split.
    + intros v' st3 Hcall'. apply call_view in Hcall' as (-> & ->).
      cbn [cls _storage].
      assert (E : getitem (mkArrayTag c l (Some V)) i (<[l := ws']> st)
                  = (<[l := ws']> st, Ok (x mod 2 ^ V))).
      { rewrite Hws. exact Hread. }
      split; [exact E|].
      intros Hx. rewrite E. rewrite Z.mod_small by lia. reflexivity.
    + destruct (slot_start (width c) V i HW Hi HV) as (Hs & Ho & Hs0).
      assert (i * V / width c < len ws) by nia.
      exists (nth (Z.to_nat (i * V / width c)) ws' 0). split.
      * unfold getitem, arr_get. cbn [virtual_width _storage]. rewrite Hst'.
        rewrite Array_getitem_ok by lia. reflexivity.
      * intros b Hb Hin.
        specialize (Hbits (i * V + b) ltac:(nia)). unfold stream_bit in Hbits.
        replace (i * V + b) with (i * V / width c * width c + ((i * V) mod width c + b))
          in Hbits at 1 2 by lia.
        rewrite loc_div, loc_mod in Hbits by lia. rewrite Hbits.
        replace ((i * V <=? i * V + b) && (i * V + b <? (i + 1) * V)) with true.
        -- f_equal. lia.
        -- symmetry. apply andb_true_iff. split; [apply Z.leb_le|apply Z.ltb_lt]; lia.
  - intros k y Hk. split.
    + intros Hy.
      exists (<[l := <[Z.to_nat k := y]> ws]> st). split.
      * unfold setitem. cbn [virtual_width _storage cls]. rewrite Hst.
        rewrite overwrite_word_ok by done. reflexivity.
      * intros j b Hj Hjlen Hb Hword.
        assert (Hk' : (Z.to_nat k < length ws)%nat) by (unfold len in Hk; lia).
        assert (G1 : <[l := <[Z.to_nat k := y]> ws]> st !! l
                     = Some (<[Z.to_nat k := y]> ws)) by apply lookup_insert_eq.
        assert (G2 : well_formed (width c) (<[Z.to_nat k := y]> ws))
          by (apply wf_insert; auto).
        assert (G3 : (j + 1) * V <= width c * len (<[Z.to_nat k := y]> ws))
          by (unfold len in *; rewrite length_insert; done).
        destruct (getitem_view c l V j _ _ G1 G2 ltac:(lia) Hj G3)
          as (r & Hget & _ & Hrb).
        exists r. split; [exact Hget|]. rewrite Hrb by done. unfold stream_bit.
        rewrite Hword. rewrite nth_insert by done.
        destruct (decide (Z.to_nat k = Z.to_nat k)); [done|congruence].
    + intros Hy. unfold setitem. cbn [virtual_width _storage cls]. rewrite Hst.
      unfold overwrite_word, fits.
      replace ((0 <=? y) && (y <? 2 ^ width c)) with false; [reflexivity|].
      symmetry. apply andb_false_iff.
      destruct (Z_le_dec 0 y); [right; apply Z.ltb_ge; lia|left; apply Z.leb_gt; lia].
Qed.

Lemma C8_witness :
  exists st2,
    setitem (mkArrayTag ByteArray 0%nat (Some 4)) 1 31 demo_store = (st2, Ok tt)
    /\ getitem (mkArrayTag ByteArray 0%nat (Some 4)) 1 st2 = (st2, Ok 15).
Proof.
  destruct (C8_view_aliases_storage (mkArrayTag ByteArray 0%nat None) 4
              (mkArrayTag ByteArray 0%nat (Some 4)) demo_store demo_store
              [0; 0] 1 31) as (_ & (st2 & Hset & Hread & _) & _).
  - reflexivity.
  - reflexivity.
  - repeat constructor; vm_compute; congruence.
  - reflexivity.
  - vm_compute; intuition congruence.
  - lia.
  - vm_compute; congruence.
  - left. vm_compute; congruence.
  - exists st2. split; [exact Hset|].
    exact (proj1 (Hread (mkArrayTag ByteArray 0%nat (Some 4)) st2 eq_refl)).
Defined.

(** *** [asarray] *)

Lemma bits_uint_app W ws w : bits_uint W (ws ++ [w]) = bits_uint W ws * 2 ^ W + w.
Proof. unfold bits_uint. rewrite fold_left_app. reflexivity. Qed.

Lemma testbit_shift_add W B w p :
  0 < W -> 0 <= w < 2 ^ W -> 0 <= p ->
  Z.testbit (B * 2 ^ W + w) p
  = if p <? W then Z.testbit w p else Z.testbit B (p - W).
Proof.
  intros HW Hw Hp.
  rewrite <- Z.shiftl_mul_pow2 by lia.
  rewrite Z.add_nocarry_lor.
  - rewrite Z.lor_spec, Z.shiftl_spec by lia.
    destruct (Z.ltb_spec p W).
    + rewrite Z.testbit_neg_r by lia. reflexivity.
    + rewrite (testbit_high W w p) by lia. apply orb_false_r.
  - apply Z.bits_inj'. intros n Hn.
    rewrite Z.land_spec, Z.shiftl_spec, Z.bits_0 by lia.
    destruct (Z_lt_dec n W).
    + rewrite Z.testbit_neg_r by lia. reflexivity.
    + rewrite (testbit_high W w n) by lia. apply andb_false_r.
Qed.

Lemma well_formed_app W ws w :
  well_formed W (ws ++ [w]) -> well_formed W ws /\ 0 <= w < 2 ^ W.
Proof.
  unfold well_formed. rewrite Forall_app. intros [H1 H2].
  split; [done|]. by apply Forall_inv in H2.
Qed.

(** Bit [p] of the buffer's integer lies in word [len - 1 - p / W]. *)
Lemma bits_uint_testbit W ws : forall p,
  0 < W -> well_formed W ws -> 0 <= p < W * len ws ->
  Z.testbit (bits_uint W ws) p
  = Z.testbit (nth (Z.to_nat (len ws - 1 - p / W)) ws 0) (p mod W).
Proof.
  induction ws as [|w ws IH] using rev_ind; intros p HW Hwf Hp.
  - unfold len in Hp. simpl in Hp. lia.
  - apply well_formed_app in Hwf as [Hwf Hw].
    rewrite bits_uint_app, testbit_shift_add by lia.
    assert (Hl : len (ws ++ [w]) = len ws + 1)
      by (unfold len; rewrite length_app; simpl; lia).
    rewrite Hl in *. pose proof (len_nonneg ws) as Hl0.
    destruct (Z.ltb_spec p W).
    + rewrite Z.div_small, Z.mod_small by lia.
      replace (len ws + 1 - 1 - 0) with (len ws) by lia.
      unfold len. rewrite Nat2Z.id. rewrite nth_middle. reflexivity.
    + rewrite IH by (auto; lia).
      replace p with (p - W + 1 * W) at 3 4 by lia.
      rewrite Z.div_add, Z.mod_add by lia.
      assert (0 <= (p - W) / W) by (apply Z.div_pos; lia).
      assert ((p - W) / W < len ws) by (apply Z.div_lt_upper_bound; lia).
      rewrite app_nth1 by (unfold len in *; lia).
      do 2 f_equal. lia.
Qed.

(** Element [k] of [asarray(V)], for [V] a divisor of the word width, is
    the slot of the width-[V] view at the mirrored place of its word. *)
Lemma asarray_mirror c l V k st ws :
  st !! l = Some ws -> well_formed (width c) ws -> 0 < V ->
  width c mod V = 0 -> 0 <= k < len ws * (width c / V) ->
  exists v,
    asarray_getitem (mkArrayTag c l None) (Some V) k st = (st, Ok v)
    /\ getitem (mkArrayTag c l (Some V)) (mirror (width c / V) k) st
       = (st, Ok v).
Proof.
  intros Hst Hwf HV Hdiv Hk.
  pose proof (width_pos c) as HW. set (W := width c) in *.
  apply Z.mod_divide in Hdiv; [|lia]. destruct Hdiv as [q Hq].
  assert (Hq0 : 0 < q) by nia.
  assert (HWV : W / V = q) by (rewrite Hq; apply Z.div_mul; lia).
  rewrite HWV in *.
  pose proof (Z.div_mod k q ltac:(lia)) as Hdm.
  pose proof (Z.mod_pos_bound k q Hq0) as Hr.
  assert (Ha0 : 0 <= k / q) by (apply Z.div_pos; lia).
  assert (Ha1 : k / q < len ws) by (apply Z.div_lt_upper_bound; lia).
  set (a := k / q) in *. set (r := k mod q) in *.
  assert (Hm : mirror q k = a * q + (q - 1 - r)) by reflexivity.
  destruct (getitem_view c l V (mirror q k) st ws) as (v & Hget & Hv & Hvb); auto.
  { fold W. nia. }
  { rewrite Hm. nia. }
  { fold W. rewrite Hm. nia. }
  exists v. split; [|exact Hget].
  unfold asarray_getitem. cbn [_storage cls]. rewrite Hst. fold W.
  unfold Array_uint_getitem.
  assert (Hn : W * len ws / V = len ws * q).
  { rewrite Hq. replace (q * V * len ws) with (len ws * q * V) by lia.
    apply Z.div_mul. lia. }
  rewrite Hn.
  destruct (k <? 0) eqn:E1; [lia|].
  destruct (k <? 0) eqn:E2; [lia|].
  destruct (len ws * q <=? k) eqn:E3; [lia|]. cbn [orb].
  do 2 f_equal.
  assert (H2V : 0 < 2 ^ V) by (apply Z.pow_pos_nonneg; lia).
  apply (bits_eq_of_range V); [lia|apply Z.mod_pos_bound; done|done|].
  intros b Hb. rewrite Hvb by done. fold W.
  rewrite Z.mod_pow2_bits_low by lia.
  rewrite Z.div_pow2_bits by nia.
  rewrite bits_uint_testbit by (auto; nia).
  unfold stream_bit.
  assert (E : b + (W * len ws - (k + 1) * V)
              = (len ws - 1 - a) * W + ((q - 1 - r) * V + b)) by nia.
  rewrite E. rewrite (loc_div W), (loc_mod W) by nia.
  rewrite Hm.
  replace ((a * q + (q - 1 - r)) * V + b) with (a * W + ((q - 1 - r) * V + b)) by nia.
  rewrite (loc_div W), (loc_mod W) by nia.
  do 2 f_equal. lia.
Qed.

(** X4.  [asarray(V)], for a width [V] that divides the word width,
    and the view [self(V)] number the slots of a word from opposite
    ends: with [q = W / V] slots to a word, element [k] of [asarray(V)]
    is slot [mirror q k] of the view, that is slot [q - 1 - k mod q] of
    word [k / q]; the array has [len * q] elements and an index at or
    past that raises [IndexError]. *)
Theorem asarray_reads_mirrored_slot c l V k st ws :
  st !! l = Some ws -> well_formed (width c) ws -> 0 < V ->
  width c mod V = 0 -> 0 <= k ->
  let q := width c / V in
  (k < len ws * q ->
   exists v,
     asarray_getitem (mkArrayTag c l None) (Some V) k st = (st, Ok v)
     /\ getitem (mkArrayTag c l (Some V)) (mirror q k) st = (st, Ok v))
  /\ (len ws * q <= k ->
      asarray_getitem (mkArrayTag c l None) (Some V) k st
      = (st, Raise IndexError)).
Proof.
  intros Hst Hwf HV Hdiv Hk. cbv zeta. split.
  - intros Hlt. apply (asarray_mirror c l V k st ws); auto.
  - intros Hge. pose proof (width_pos c) as HW.
    unfold asarray_getitem. cbn [_storage cls]. rewrite Hst.
    unfold Array_uint_getitem.
    apply Z.mod_divide in Hdiv; [|lia]. destruct Hdiv as [q Hq].
    assert (HWV : width c / V = q) by (rewrite Hq; apply Z.div_mul; lia).
    rewrite HWV in Hge.
    assert (Hn : width c * len ws / V = len ws * q).
    { rewrite Hq. replace (q * V * len ws) with (len ws * q * V) by lia.
      apply Z.div_mul. lia. }
    rewrite Hn.
    destruct (k <? 0) eqn:E1; [lia|].
    destruct (k <? 0) eqn:E2; [lia|].
    destruct (len ws * q <=? k) eqn:E3; [reflexivity|lia].
Qed.

(** X5.  What [IntArray.pack_list(values, 16)] writes is read by
    [asarray("uint16")] with the two values of every word exchanged:
    element [2 j] is [values[2 j + 1]] and element [2 j + 1] is
    [values[2 j]] (each taken modulo [2 ^ 16]). *)
Theorem pack_list_16_read_as_uint16 values st :
  exists st' obj,
    pack_list IntArray values (Some 16) st = (st', Ok obj)
    /\ forall j, 0 <= j -> 2 * j + 1 < len values ->
         asarray_getitem obj (Some 16) (2 * j) st'
         = (st', Ok (nth (Z.to_nat (2 * j + 1)) values 0 mod 2 ^ 16))
         /\ asarray_getitem obj (Some 16) (2 * j + 1) st'
            = (st', Ok (nth (Z.to_nat (2 * j)) values 0 mod 2 ^ 16)).
Proof.
  assert (Hns : no_straddle IntArray 16) by (left; reflexivity).
  destruct (pack_list_at_width IntArray values 16 st ltac:(cbn [width]; lia) Hns)
    as (ws & Hp & Hfresh & Hwf & Hlen & Hread).
  cbv zeta in Hp, Hfresh, Hlen, Hread.
  set (l := fresh (dom st)) in *.
  exists (<[l := ws]> st), (mkArrayTag IntArray l None).
  split; [exact Hp|].
  intros j Hj Hjl.
  pose proof (ceil_div_spec (len values * 16) 32 ltac:(lia)) as Hcap.
  cbn [width] in Hlen. rewrite <- Hlen in Hcap.
  assert (Hst' : <[l := ws]> st !! l = Some ws) by apply lookup_insert_eq.
  split.
  - destruct (asarray_mirror IntArray l 16 (2 * j) _ ws Hst' Hwf) as (v & Ha & Hg);
      [lia|reflexivity|cbn [width]; change (32 / 16) with 2; lia|].
    rewrite Ha.
    assert (Hm : mirror (width IntArray / 16) (2 * j) = 2 * j + 1).
    { cbn [width]. change (32 / 16) with 2. unfold mirror.
      replace (2 * j) with (j * 2) by lia.
      rewrite Z.div_mul, Z.mod_mul by lia. lia. }
    rewrite Hm in Hg. rewrite Hread in Hg by lia.
    injection Hg as <-. reflexivity.
  - destruct (asarray_mirror IntArray l 16 (2 * j + 1) _ ws Hst' Hwf) as (v & Ha & Hg);
      [lia|reflexivity|cbn [width]; change (32 / 16) with 2; lia|].
    rewrite Ha.
    assert (Hm : mirror (width IntArray / 16) (2 * j + 1) = 2 * j).
    { cbn [width]. change (32 / 16) with 2. unfold mirror.
      replace (2 * j + 1) with (1 + j * 2) by lia.
      rewrite Z.div_add, Z.mod_add by lia. change (1 / 2) with 0.
      change (1 mod 2) with 1. lia. }
    rewrite Hm in Hg. rewrite Hread in Hg by lia.
    injection Hg as <-. reflexivity.
Qed.

Lemma norm_index_neg {A} (ws : list A) k :
  - len ws <= k < 0 -> norm_index ws k = Ok (Z.to_nat (k + len ws)).
Proof.
  intros H. unfold norm_index.
  destruct (k <? 0) eqn:E1; [|lia].
  destruct (k + len ws <? 0) eqn:E3; [lia|].
  destruct (len ws <=? k + len ws) eqn:E2; [lia|]. reflexivity.
Qed.

Lemma Array_getitem_wrap ws k :
  - len ws <= k < len ws ->
  Array_getitem ws k = Ok (nth (Z.to_nat (k mod len ws)) ws 0).
Proof.
  intros H. destruct (Z_lt_dec k 0) as [Hn|Hn].
  - unfold Array_getitem. rewrite norm_index_neg by lia. simpl.
    replace (k mod len ws) with (k + len ws)
      by (apply (Z.mod_unique_pos _ _ (-1)); lia).
    destruct (ws !! Z.to_nat (k + len ws)) eqn:E3.
    + f_equal. symmetry. apply nth_lookup_Some with (d := 0) in E3. exact E3.
    + apply lookup_ge_None in E3. unfold len in *. lia.
  - rewrite Z.mod_small by lia. apply Array_getitem_ok. lia.
Qed.

Lemma overwrite_word_wrap w ws k y :
  - len ws <= k < len ws -> 0 <= y < 2 ^ w ->
  overwrite_word w ws k y = Ok (<[Z.to_nat (k mod len ws) := y]> ws).
Proof.
  intros Hk Hy. destruct (Z_lt_dec k 0) as [Hn|Hn].
  - unfold overwrite_word, fits.
    destruct (0 <=? y) eqn:E1; [|lia]. destruct (y <? 2 ^ w) eqn:E2; [|lia].
    cbn [andb negb]. destruct (k <? 0) eqn:E3; [|lia].
    destruct (k + len ws <? 0) eqn:E3'; [lia|].
    destruct (len ws <? k + len ws) eqn:E4; [lia|]. cbn [orb].
    destruct (k + len ws =? len ws) eqn:E5; [lia|].
    replace (k mod len ws) with (k + len ws)
      by (apply (Z.mod_unique_pos _ _ (-1)); lia).
    reflexivity.
  - rewrite Z.mod_small by lia. apply overwrite_word_ok; lia.
Qed.

(** X6.  [__setitem__] and [__getitem__] on an array that is no view,
    at an index of the array (negative indices count from the end): a
    value that fits the word is stored and read back at that index and
    every other element is as before; a value that does not fit raises
    [ValueError] and leaves the buffer as it was. *)
Theorem native_write_then_read a k y st ws :
  virtual_width a = None -> st !! _storage a = Some ws ->
  - len ws <= k < len ws ->
  (0 <= y < 2 ^ width (cls a) ->
   exists st', setitem a k y st = (st', Ok tt)
     /\ getitem a k st' = (st', Ok y)
     /\ forall j, - len ws <= j < len ws -> j mod len ws <> k mod len ws ->
          exists r, getitem a j st = (st, Ok r)
                    /\ getitem a j st' = (st', Ok r))
  /\ (~ 0 <= y < 2 ^ width (cls a) ->
      setitem a k y st = (st, Raise ValueError)).
Proof.
  intros Hnat Hst Hk. destruct a as [c l vw].
  cbn [cls _storage virtual_width] in *. subst vw.
  assert (Hm : 0 <= k mod len ws < len ws) by (apply Z.mod_pos_bound; lia).
  split.
  - intros Hy. exists (<[l := <[Z.to_nat (k mod len ws) := y]> ws]> st).
    assert (Hlen' : len (<[Z.to_nat (k mod len ws) := y]> ws) = len ws)
      by (unfold len; rewrite length_insert; done).
    split; [|split].
    + unfold setitem. cbn [virtual_width _storage cls]. rewrite Hst.
      rewrite overwrite_word_wrap by done. reflexivity.
    + unfold getitem, arr_get. cbn [virtual_width _storage].
      rewrite lookup_insert_eq. rewrite Array_getitem_wrap by lia.
      rewrite Hlen'. rewrite nth_insert by (unfold len in *; lia).
      destruct (decide _); [done|congruence].
    + intros j Hj Hne.
      assert (Hmj : 0 <= j mod len ws < len ws) by (apply Z.mod_pos_bound; lia).
      exists (nth (Z.to_nat (j mod len ws)) ws 0). split.
      * unfold getitem, arr_get. cbn [virtual_width _storage]. rewrite Hst.
        rewrite Array_getitem_wrap by lia. reflexivity.
      * unfold getitem, arr_get. cbn [virtual_width _storage].
        rewrite lookup_insert_eq. rewrite Array_getitem_wrap by lia.
        rewrite Hlen'. rewrite nth_insert by (unfold len in *; lia).
        destruct (decide _) as [Heq|]; [lia|done].
  - intros Hy. unfold setitem. cbn [virtual_width _storage cls]. rewrite Hst.
    unfold overwrite_word, fits.
    destruct (0 <=? y) eqn:E1; destruct (y <? 2 ^ width c) eqn:E2;
      cbn [andb negb]; try reflexivity. lia.
Qed.

Lemma view_read_bits_or_IndexError_witness :
  exists v,
    getitem demo_view 12 (<[0%nat := [5764607523034234880; 1]]> demo_store)
    = (<[0%nat := [5764607523034234880; 1]]> demo_store, Ok v)
    /\ 0 <= v < 2 ^ 5
    /\ forall k, 0 <= k < 5 ->
         Z.testbit v k = stream_bit 64 [5764607523034234880; 1] (12 * 5 + k).
Proof.
  refine (proj1 (view_read_bits_or_IndexError LongArray 0%nat 5 12
            (<[0%nat := [5764607523034234880; 1]]> demo_store)
            [5764607523034234880; 1] _ _ _ _) _).
  - reflexivity.
  - repeat constructor; vm_compute; congruence.
  - vm_compute; intuition congruence.
  - lia.
  - vm_compute; intuition congruence.
Defined.

Lemma view_write_then_read_witness :
  exists st',
    setitem (mkArrayTag IntArray 0%nat (Some 16)) 1 70000 demo_store = (st', Ok tt)
    /\ getitem (mkArrayTag IntArray 0%nat (Some 16)) 1 st' = (st', Ok 4464).
Proof.
  destruct (view_write_then_read IntArray 0%nat 16 1 70000 demo_store [0; 0])
    as (st' & Hw & Hr & _).
  - reflexivity.
  - repeat constructor; vm_compute; congruence.
  - vm_compute; intuition congruence.
  - left; reflexivity.
  - lia.
  - vm_compute; intuition congruence.
  - exists st'. split; [exact Hw | exact Hr].
Defined.

Lemma view_write_crossing_words_witness :
  exists ws',
    setitem (mkArrayTag ByteArray 0%nat (Some 3)) 2 5 demo_store
    = (<[0%nat := ws']> demo_store, Raise ValueError)
    /\ len ws' = 2.
Proof.
  destruct (view_write_crossing_words ByteArray 0%nat 3 2 5 demo_store [0; 0])
    as (ws' & Hw & Hl & _).
  - discriminate.
  - reflexivity.
  - repeat constructor; vm_compute; congruence.
  - vm_compute; intuition congruence.
  - lia.
  - vm_compute; intuition congruence.
  - vm_compute; intuition congruence.
  - exists ws'. split; [exact Hw | exact Hl].
Defined.

Lemma asarray_reads_mirrored_slot_witness :
  exists v,
    asarray_getitem (mkArrayTag IntArray 0%nat None) (Some 16) 0
      (<[0%nat := [65538; 7]]> demo_store)
    = (<[0%nat := [65538; 7]]> demo_store, Ok v)
    /\ getitem (mkArrayTag IntArray 0%nat (Some 16)) 1
         (<[0%nat := [65538; 7]]> demo_store)
       = (<[0%nat := [65538; 7]]> demo_store, Ok v).
Proof.
  refine (proj1 (asarray_reads_mirrored_slot IntArray 0%nat 16 0
            (<[0%nat := [65538; 7]]> demo_store) [65538; 7] _ _ _ _ _) _).
  - reflexivity.
  - repeat constructor; vm_compute; congruence.
  - lia.
  - reflexivity.
  - lia.
  - vm_compute; intuition congruence.
Defined.

Lemma native_write_then_read_witness :
  exists st',
    setitem (mkArrayTag ByteArray 0%nat None) (-1) 200 demo_store = (st', Ok tt)
    /\ getitem (mkArrayTag ByteArray 0%nat None) (-1) st' = (st', Ok 200).
Proof.
  destruct (proj1 (native_write_then_read (mkArrayTag ByteArray 0%nat None) (-1) 200
                     demo_store [0; 0] eq_refl eq_refl ltac:(vm_compute; intuition congruence)))
    as (st' & Hw & Hr & _).
  - vm_compute; intuition congruence.
  - exists st'. split; [exact Hw | exact Hr].
Defined.

End PackedFacts.
(** * Properties of the binary codec *)

Module NbtFacts.
Import Nbt.

Lemma read_suffix n buff bs rest :
  read n buff = Ok (bs, rest) -> buff = bs ++ rest.
Proof.
  unfold read. destruct (len buff <? n); [discriminate|].
  intros [= <- <-]. symmetry. apply take_drop.
Qed.

Lemma read_intbe_suffix n buff v rest :
  read_intbe n buff = Ok (v, rest) -> exists pre, buff = pre ++ rest.
Proof.
  unfold read_intbe. destruct (read n buff) as [[bs r]|] eqn:E; [|discriminate].
  simpl. intros [= <- <-]. eauto using read_suffix.
Qed.

Lemma read_uintbe_suffix n buff v rest :
  read_uintbe n buff = Ok (v, rest) -> exists pre, buff = pre ++ rest.
Proof.
  unfold read_uintbe. destruct (read n buff) as [[bs r]|] eqn:E; [|discriminate].
  simpl. intros [= <- <-]. eauto using read_suffix.
Qed.

Lemma suffix_trans (a b c : list byte) :
  (exists p, a = p ++ b) -> (exists q, b = q ++ c) -> exists r, a = r ++ c.
Proof. intros [p ->] [q ->]. exists (p ++ q). by rewrite <- app_assoc. Qed.

Lemma String_from_buff_suffix buff v rest :
  String_from_buff buff = Ok (v, rest) -> exists pre, buff = pre ++ rest.
Proof.
  unfold String_from_buff.
  destruct (read_uintbe 2 buff) as [[n r1]|] eqn:E1; [|discriminate]. simpl.
  destruct (read n r1) as [[bs r2]|] eqn:E2; [|discriminate]. simpl.
  destruct (utf8_decode _); [|discriminate]. simpl. intros [= <- <-].
  eapply suffix_trans; [eauto using read_uintbe_suffix|].
  eauto using read_suffix.
Qed.

Lemma Array_from_buff_suffix c mk buff v rest :
  Array_from_buff c mk buff = Ok (v, rest) -> exists pre, buff = pre ++ rest.
Proof.
  unfold Array_from_buff.
  destruct (read_uintbe 4 buff) as [[n r1]|] eqn:E1; [|discriminate]. simpl.
  destruct (read _ r1) as [[bs r2]|] eqn:E2; [|discriminate]. simpl.
  intros [= <- <-].
  eapply suffix_trans; [eauto using read_uintbe_suffix|].
  eauto using read_suffix.
Qed.

Lemma read_items_suffix f n :
  (forall buff v rest, f buff = Ok (v, rest) -> exists pre, buff = pre ++ rest) ->
  forall buff vs rest,
    read_items f n buff = Ok (vs, rest) -> exists pre, buff = pre ++ rest.
Proof.
  intros Hf. induction n as [|n IH]; simpl; intros buff vs rest.
  - intros [= <- <-]. by exists [].
  - destruct (f buff) as [[v r1]|] eqn:E1; [|discriminate]. simpl.
    destruct (read_items f n r1) as [[l r2]|] eqn:E2; [|discriminate]. simpl.
    intros [= <- <-]. eapply suffix_trans; eauto.
Qed.

Lemma decode_suffix fuel :
  (forall t buff v rest,
      from_buff fuel t buff = Ok (v, rest) -> exists pre, buff = pre ++ rest)
  /\ (forall data buff data' rest,
      Compound_entries fuel data buff = Ok (data', rest) ->
      (exists pre, buff = pre ++ rest) /\ stopped_at_end buff rest).
Proof.
  induction fuel as [|fuel [IHf IHc]]; [split; simpl; intros; discriminate|].
  split.
  - intros t buff v rest. simpl.
    destruct t;
      try (destruct (read_intbe _ buff) as [[x r]|] eqn:E; [|discriminate];
           simpl; intros [= <- <-]; eauto using read_intbe_suffix);
      try (destruct (read_uintbe _ buff) as [[x r]|] eqn:E; [|discriminate];
           simpl; intros [= <- <-]; eauto using read_uintbe_suffix);
      eauto using Array_from_buff_suffix, String_from_buff_suffix.
    + (* List *)
      destruct (read_intbe 1 buff) as [[id r1]|] eqn:E1; [|discriminate]. simpl.
      destruct (read_intbe 4 r1) as [[n r2]|] eqn:E2; [|discriminate]. simpl.
      assert (Hpre : exists pre, buff = pre ++ r2)
        by (eapply suffix_trans; eauto using read_intbe_suffix).
      destruct (id =? 0); [simpl; intros [= <- <-]; done|].
      destruct (tag_type_registry !! id) as [it|]; [|discriminate].
      destruct (read_items _ _ r2) as [[items r3]|] eqn:E3; [|discriminate].
      simpl. intros [= <- <-].
      eapply suffix_trans; [exact Hpre|].
      eapply read_items_suffix; [|exact E3]. intros; eauto.
    + (* Compound *)
      destruct (Compound_entries fuel [] buff) as [[d r]|] eqn:E; [|discriminate].
      simpl. intros [= <- <-]. apply IHc in E. tauto.
  - intros data buff data' rest. simpl.
    destruct buff as [|b buff'].
    { intros [= <- <-]. split; [by exists []|by left]. }
    destruct (read_intbe 1 (b :: buff')) as [[id r1]|] eqn:E1; [|discriminate].
    simpl.
    assert (Hr1 : r1 = buff' /\ id = intbe [b]).
    { unfold read_intbe, read in E1. simpl in E1.
      destruct (len (b :: buff') <? 1); [discriminate|].
      simpl in E1. rewrite drop_0 in E1. by injection E1 as <- <-. }
    destruct Hr1 as [-> ->].
    destruct (intbe [b] =? 0) eqn:E0.
    + intros [= <- <-]. split; [by exists [b]|]. right. exists [].
      simpl. f_equal. apply Z.eqb_eq in E0.
      destruct b; vm_compute in E0; congruence.
    + destruct (tag_type_registry !! intbe [b]) as [t|]; [|discriminate].
      destruct (String_from_buff buff') as [[k r2]|] eqn:E2; [|discriminate].
      simpl.
      destruct (from_buff fuel t r2) as [[v r3]|] eqn:E3; [|discriminate].
      simpl. intros E4. apply IHc in E4 as [Hsuf Hstop].
      assert (Hpre : exists pre, b :: buff' = pre ++ r3).
      { eapply suffix_trans; [by exists [b]|].
        eapply suffix_trans; eauto using String_from_buff_suffix. }
      split; [eapply suffix_trans; eauto|].
      destruct Hstop as [->|[pre Hp]]; [by left|right].
      destruct Hpre as [pre' ->]. exists (pre' ++ pre). rewrite Hp.
      by rewrite <- app_assoc.
Qed.

Lemma read_one b rest : read 1 (b :: rest) = Ok ([b], rest).
Proof.
  unfold read. pose proof (len_nonneg rest). rewrite len_cons.
  destruct (1 + len rest <? 1) eqn:E; [lia|]. simpl. by rewrite drop_0.
Qed.

Lemma read_four a b c d rest :
  read 4 (a :: b :: c :: d :: rest) = Ok ([a; b; c; d], rest).
Proof.
  unfold read. pose proof (len_nonneg rest). rewrite !len_cons.
  destruct (_ <? 4) eqn:E; [lia|]. simpl. by rewrite drop_0.
Qed.

Lemma Compound_entries_nonempty fuel data b rest :
  Compound_entries (S fuel) data (b :: rest)
  = if intbe [b] =? 0 then Ok (data, rest)
    else match tag_type_registry !! intbe [b] with
         | None => Raise ValueError
         | Some tag_type =>
             '(key, buff) ← String_from_buff rest;
             let key := match key with String s => s | _ => [] end in
             '(value, buff) ← from_buff fuel tag_type buff;
             Compound_entries fuel (dict_set data key value) buff
         end.
Proof.
  cbn [Compound_entries]. unfold read_intbe at 1. rewrite read_one.
  reflexivity.
Qed.

(** C6.  The fixture decodes, as a named root, to the name [""] over
    [{"foo": String("bar")}]; and the [Compound] loop returns at the end
    of the stream and at a 0x00 kind byte, goes on to read an entry at
    any other registered kind byte, and returns normally in no other
    way. *)
Theorem C6_named_root_and_compound_end :
  (forall gzip_decompress,
      load_nbt_from_bytes gzip_decompress named_fixture
      = Ok (mkNamed [] [(lit "foo", String (lit "bar"))]))
  /\ (forall fuel data, Compound_entries (S fuel) data [] = Ok (data, []))
  /\ (forall fuel data rest,
         Compound_entries (S fuel) data (x00 :: rest) = Ok (data, rest))
  /\ (forall fuel data b rest,
         Compound_entries (S fuel) data (b :: rest)
         = if intbe [b] =? 0 then Ok (data, rest)
           else match tag_type_registry !! intbe [b] with
                | None => Raise ValueError
                | Some tag_type =>
                    '(key, buff) ← String_from_buff rest;
                    let key := match key with String s => s | _ => [] end in
                    '(value, buff) ← from_buff fuel tag_type buff;
                    Compound_entries fuel (dict_set data key value) buff
                end)
  /\ (forall fuel data buff data' rest,
         Compound_entries fuel data buff = Ok (data', rest) ->
         stopped_at_end buff rest).
Proof.
  split; [intros; vm_compute; reflexivity|].
  split; [reflexivity|].
  split; [intros; rewrite Compound_entries_nonempty; reflexivity|].
  split; [apply Compound_entries_nonempty|].
  intros fuel data buff data' rest H.
  destruct (decode_suffix fuel) as [_ Hc]. apply Hc in H. tauto.
Qed.

(** C9.  A kind byte that is neither 0 nor registered makes the
    [Compound] loop raise, whatever entries it has read so far; the
    error leaves [Compound.from_buff], leaves an enclosing compound that
    reached the byte after earlier well-formed entries, and leaves
    [from_bytes] of a compound and of a named root; [List.from_buff]
    raises in the same way on such an item kind. *)
Theorem C9_unknown_kind_aborts fuel data b rest :
  intbe [b] <> 0 -> tag_type_registry !! intbe [b] = None ->
  Compound_entries (S fuel) data (b :: rest) = Raise ValueError
  /\ from_buff (S (S fuel)) Compound_t (b :: rest) = Raise ValueError
  /\ (forall b' key r1 r2 t value,
         intbe [b'] <> 0 -> tag_type_registry !! intbe [b'] = Some t ->
         String_from_buff r1 = Ok (String key, r2) ->
         from_buff (S (S fuel)) t r2 = Ok (value, b :: rest) ->
         Compound_entries (S (S (S fuel))) data (b' :: r1) = Raise ValueError)
  /\ (forall n1 n2 n3 n4,
         from_buff (S fuel) List_t (b :: n1 :: n2 :: n3 :: n4 :: rest)
         = Raise ValueError)
  /\ from_bytes Compound_t (b :: rest) = Raise ValueError
  /\ Named_from_bytes (b :: rest) = Raise ValueError.
Proof.
  intros Hnz Hreg.
  assert (Hloop : forall f d,
             Compound_entries (S f) d (b :: rest) = Raise ValueError).
  { intros f d. rewrite Compound_entries_nonempty.
    destruct (intbe [b] =? 0) eqn:E0; [apply Z.eqb_eq in E0; done|].
    by rewrite Hreg. }
  assert (E : Compound_entries (S fuel) data (b :: rest) = Raise ValueError).
  { rewrite Compound_entries_nonempty.
    destruct (intbe [b] =? 0) eqn:E0; [apply Z.eqb_eq in E0; done|].
    by rewrite Hreg. }
  split; [exact E|]. split.
  - change (from_buff (S (S fuel)) Compound_t (b :: rest))
      with ('(data, buff) ← Compound_entries (S fuel) [] (b :: rest);
            c ← Compound_init data; Ok (c, buff)).
    assert (E' : Compound_entries (S fuel) [] (b :: rest) = Raise ValueError).
    { rewrite Compound_entries_nonempty.
      destruct (intbe [b] =? 0) eqn:E0; [apply Z.eqb_eq in E0; done|].
      by rewrite Hreg. }
    rewrite E'. reflexivity.
  - split.
    + intros b' key r1 r2 t value Hnz' Hreg' Hkey Hval.
      rewrite Compound_entries_nonempty.
      destruct (intbe [b'] =? 0) eqn:E0; [apply Z.eqb_eq in E0; done|].
      rewrite Hreg', Hkey. cbn [mbind result_bind rbind].
      rewrite Hval. cbn [mbind result_bind rbind].
      rewrite Compound_entries_nonempty.
      destruct (intbe [b] =? 0) eqn:E1; [apply Z.eqb_eq in E1; done|].
      by rewrite Hreg.
    + split; [|split].
      * intros n1 n2 n3 n4. cbn [from_buff].
        unfold read_intbe. rewrite read_one. cbn [mbind result_bind rbind].
        rewrite read_four. cbn [mbind result_bind rbind].
        destruct (intbe [b] =? 0) eqn:E0; [apply Z.eqb_eq in E0; done|].
        by rewrite Hreg.
      * unfold from_bytes, fuel_for. cbn [from_buff]. by rewrite Hloop.
      * unfold Named_from_bytes, fuel_for. by rewrite Hloop.
Qed.

Lemma C9_witness :
  intbe [xa3] <> 0 /\ tag_type_registry !! intbe [xa3] = None
  /\ from_bytes Compound_t unknown_kind_compound = Raise ValueError
  /\ from_bytes List_t unknown_kind_list = Raise ValueError
  /\ Compound_entries 1 [] [xa3; x00; x03; x66; x6f; x6f] = Raise ValueError.
Proof.
  split; [vm_compute; discriminate|]. split; [vm_compute; reflexivity|].
  split; [vm_compute; reflexivity|]. split; [vm_compute; reflexivity|].
  apply (C9_unknown_kind_aborts 0 [] xa3 [x00; x03; x66; x6f; x6f]);
    [vm_compute; discriminate | vm_compute; reflexivity].
Defined.

(** *** The decoder never runs out of fuel *)

Lemma suffix_length (a b : list byte) :
  (exists pre, a = pre ++ b) -> (length b <= length a)%nat.
Proof. intros [pre ->]. rewrite length_app. lia. Qed.

Lemma read_length n buff bs rest :
  0 <= n -> read n buff = Ok (bs, rest) ->
  (length rest + Z.to_nat n = length buff)%nat.
Proof.
  unfold read, len. intros Hn. destruct (_ <? n) eqn:E; [discriminate|].
  intros [= <- <-]. rewrite length_drop. lia.
Qed.

Lemma String_from_buff_length buff v rest :
  String_from_buff buff = Ok (v, rest) -> (length rest + 2 <= length buff)%nat.
Proof.
  unfold String_from_buff, read_uintbe.
  destruct (read 2 buff) as [[b2 r1]|] eqn:E1; [|discriminate]. simpl.
  destruct (read _ r1) as [[bs r2]|] eqn:E2; [|discriminate]. simpl.
  destruct (utf8_decode _); [|discriminate]. simpl. intros [= <- <-].
  apply read_length in E1; [|lia].
  apply read_suffix in E2. apply (f_equal length) in E2.
  rewrite length_app in E2. lia.
Qed.

Lemma read_not_fuel n buff : read n buff <> Raise OutOfFuel.
Proof. unfold read. destruct (_ <? _); discriminate. Qed.

Lemma read_intbe_not_fuel n buff : read_intbe n buff <> Raise OutOfFuel.
Proof.
  unfold read_intbe, read. destruct (_ <? _); discriminate.
Qed.

Lemma read_uintbe_not_fuel n buff : read_uintbe n buff <> Raise OutOfFuel.
Proof.
  unfold read_uintbe, read. destruct (_ <? _); discriminate.
Qed.

Lemma utf8_decode_not_fuel : forall n bs, (length bs <= n)%nat -> utf8_decode bs <> Raise OutOfFuel.
Proof.
  induction n as [|n IH]; intros bs Hn.
  - destruct bs; [discriminate|simpl in Hn; lia].
  - destruct bs as [|b0 r0]; [discriminate|]. simpl in Hn.
    assert (H0 : utf8_decode r0 <> Raise OutOfFuel) by (apply IH; lia).
    cbn [utf8_decode].
    repeat match goal with
    | |- context [if ?c then _ else _] => destruct c
    | |- context [match ?l with [] => _ | _ :: _ => _ end] =>
        is_var l; destruct l; simpl in Hn
    | |- Raise _ <> Raise OutOfFuel => discriminate
    | |- (?m ≫= _) <> _ =>
        let E := fresh in
        assert (E : m <> Raise OutOfFuel) by (apply IH; lia);
        destruct m as [?|[]]; simpl; congruence
    end.
Qed.

Lemma String_from_buff_not_fuel buff : String_from_buff buff <> Raise OutOfFuel.
Proof.
  unfold String_from_buff.
  pose proof (read_uintbe_not_fuel 2 buff).
  destruct (read_uintbe 2 buff) as [[n r1]|e]; [|simpl; congruence]. simpl.
  pose proof (read_not_fuel n r1).
  destruct (read n r1) as [[bs r2]|e]; [|simpl; congruence]. simpl.
  pose proof (utf8_decode_not_fuel _ (map byte_to_Z bs) (le_n _)).
  destruct (utf8_decode _) as [s|e]; simpl; congruence.
Qed.

Lemma Array_from_buff_not_fuel c mk buff : Array_from_buff c mk buff <> Raise OutOfFuel.
Proof.
  unfold Array_from_buff.
  pose proof (read_uintbe_not_fuel 4 buff).
  destruct (read_uintbe 4 buff) as [[n r1]|e]; [|simpl; congruence]. simpl.
  pose proof (read_not_fuel (n * (Packed.width c / 8)) r1).
  destruct (read _ r1) as [[bs r2]|e]; simpl; congruence.
Qed.

Lemma read_items_not_fuel f n :
  (forall buff v rest, f buff = Ok (v, rest) -> exists pre, buff = pre ++ rest) ->
  forall buff,
    (forall b, (length b <= length buff)%nat -> f b <> Raise OutOfFuel) ->
    read_items f n buff <> Raise OutOfFuel.
Proof.
  intros Hsuf. induction n as [|n IH]; intros buff Hf; [discriminate|].
  cbn [read_items].
  pose proof (Hf buff (le_n _)) as H0.
  destruct (f buff) as [[v r1]|e] eqn:E1; [|simpl; congruence]. simpl.
  assert (Hlen : (length r1 <= length buff)%nat) by eauto using suffix_length.
  assert (H1 : read_items f n r1 <> Raise OutOfFuel).
  { apply IH. intros b Hb. apply Hf. lia. }
  destruct (read_items f n r1) as [[l r2]|e]; simpl; congruence.
Qed.

(** The fuel [fuel_for] provides is never exhausted. *)
Lemma decode_fuel fuel :
  (forall t buff, (length buff + 2 <= fuel)%nat ->
                  from_buff fuel t buff <> Raise OutOfFuel)
  /\ (forall data buff, (length buff + 1 <= fuel)%nat ->
                        Compound_entries fuel data buff <> Raise OutOfFuel).
Proof.
  induction fuel as [|fuel [IHf IHc]]; [split; intros; lia|].
  split.
  - intros t buff Hfuel. cbn [from_buff].
    destruct t;
      try (pose proof (read_intbe_not_fuel 1 buff);
           pose proof (read_intbe_not_fuel 2 buff);
           pose proof (read_intbe_not_fuel 4 buff);
           pose proof (read_intbe_not_fuel 8 buff);
           pose proof (read_uintbe_not_fuel 4 buff);
           pose proof (read_uintbe_not_fuel 8 buff);
           match goal with
           | |- (?m ≫= _) <> _ => destruct m as [[? ?]|?]; simpl; congruence
           end);
      auto using Array_from_buff_not_fuel, String_from_buff_not_fuel.
    + (* List *)
      pose proof (read_intbe_not_fuel 1 buff).
      destruct (read_intbe 1 buff) as [[id r1]|e] eqn:E1; [|simpl; congruence].
      simpl.
      pose proof (read_intbe_not_fuel 4 r1).
      destruct (read_intbe 4 r1) as [[n r2]|e] eqn:E2; [|simpl; congruence].
      simpl.
      destruct (id =? 0); [discriminate|].
      destruct (tag_type_registry !! id) as [it|]; [|discriminate].
      assert (Hl1 : (length r1 <= length buff)%nat)
        by eauto using suffix_length, read_intbe_suffix.
      assert (Hl2 : (length r2 <= length r1)%nat)
        by eauto using suffix_length, read_intbe_suffix.
      assert (H1 : read_items (from_buff fuel it) (Z.to_nat n) r2 <> Raise OutOfFuel).
      { apply read_items_not_fuel.
        - intros b v rest Hb. destruct (decode_suffix fuel) as [Hs _]. eauto.
        - intros b Hb. apply IHf.
          unfold read_intbe in E1.
          destruct (read 1 buff) as [[bs r]|] eqn:R1; [|discriminate].
          simpl in E1. injection E1 as _ ->.
          apply read_length in R1; lia. }
      destruct (read_items _ _ r2) as [[items r3]|e]; simpl; congruence.
    + (* Compound *)
      assert (H1 : Compound_entries fuel [] buff <> Raise OutOfFuel)
        by (apply IHc; lia).
      destruct (Compound_entries fuel [] buff) as [[d r]|e]; simpl; congruence.
  - intros data buff Hfuel.
    destruct buff as [|b buff']; [discriminate|].
    rewrite Compound_entries_nonempty.
    destruct (intbe [b] =? 0); [discriminate|].
    destruct (tag_type_registry !! intbe [b]) as [t|]; [|discriminate].
    pose proof (String_from_buff_not_fuel buff').
    destruct (String_from_buff buff') as [[k r2]|e] eqn:E2; [|simpl; congruence].
    simpl. apply String_from_buff_length in E2. simpl in Hfuel.
    assert (H1 : from_buff fuel t r2 <> Raise OutOfFuel) by (apply IHf; lia).
    destruct (from_buff fuel t r2) as [[v r3]|e] eqn:E3; [|simpl; congruence].
    simpl. apply IHc.
    destruct (decode_suffix fuel) as [Hs _]. apply Hs in E3.
    apply suffix_length in E3. lia.
Qed.

(** The recursion bound of the model is never reached: [from_bytes]
    returns a tag or raises. *)
Theorem from_bytes_total t bytes_ : from_bytes t bytes_ <> Raise OutOfFuel.
Proof.
  unfold from_bytes, fuel_for.
  destruct (decode_fuel (S (S (length bytes_)))) as [Hf _].
  specialize (Hf t bytes_ ltac:(lia)).
  destruct (from_buff _ t bytes_) as [[v r]|e]; simpl; congruence.
Qed.

Theorem Named_from_bytes_total bytes_ : Named_from_bytes bytes_ <> Raise OutOfFuel.
Proof.
  unfold Named_from_bytes, fuel_for.
  destruct (decode_fuel (S (S (S (length bytes_))))) as [_ Hc].
  specialize (Hc [] bytes_ ltac:(lia)).
  destruct (Compound_entries _ [] bytes_) as [[d r]|e]; [|simpl; congruence].
  simpl. unfold Named_init. destruct (1 <? len d); [discriminate|].
  destruct d as [|[n v] [|]]; try discriminate.
  destruct (dict_init v) as [d|e] eqn:E; [discriminate|].
  cbn [mbind result_bind rbind]. intros [= ->].
  destruct v as [| | | | | |[|]|[|]|[|[] ?]| |[|]|[|]]; discriminate E.
Qed.

(** *** [String] and [List] *)

(** C3 fails on the code.  For the one-character string U+00E9 the
    UTF-8 form has two bytes, the length prefix written is 1 (the number
    of code points), and decoding the bytes just written raises. *)
Theorem C3_length_prefix_counts_code_points :
  utf8_encode e_acute = Ok [0xC3; 0xA9]
  /\ String_to_bytes e_acute = Ok [x00; x01; xc3; xa9]
  /\ (bs ← String_to_bytes e_acute; from_bytes String_t bs)
     = Raise UnicodeDecodeError.
Proof. repeat split. Qed.

(** The prefix is always the length of the [str]. *)
Lemma String_to_bytes_prefix s bs :
  String_to_bytes s = Ok bs ->
  exists body, utf8_encode s = Ok body
               /\ bs = be_bytes 2 (len s) ++ map byte_of_Z body.
Proof.
  unfold String_to_bytes, build_uintbe.
  destruct (_ && _); [|discriminate]. simpl.
  destruct (utf8_encode s) as [body|]; [|discriminate]. simpl.
  intros [= <-]. eauto.
Qed.

Lemma byte_to_of_Z z : 0 <= z < 256 -> byte_to_Z (byte_of_Z z) = z.
Proof.
  intros Hz. unfold byte_to_Z, byte_of_Z. rewrite Z.mod_small by lia.
  destruct (Byte.of_N (Z.to_N z)) as [b|] eqn:E.
  - apply Byte.to_of_N in E. rewrite E. lia.
  - apply Byte.of_N_None_iff in E. lia.
Qed.

Lemma uintbe_be_bytes_2 n : 0 <= n < 65536 -> uintbe (be_bytes 2 n) = n.
Proof.
  intros Hn. cbn [be_bytes app]. unfold uintbe. cbn [fold_left].
  unfold byte_to_Z at 1 2, byte_of_Z.
  assert (H1 : 0 <= n / 256 < 256) by (split; [apply Z.div_pos|apply Z.div_lt_upper_bound]; lia).
  pose proof (byte_to_of_Z (n / 256) H1) as E1.
  pose proof (byte_to_of_Z (n mod 256) ltac:(apply Z.mod_pos_bound; lia)) as E2.
  unfold byte_to_Z, byte_of_Z in E1, E2.
  rewrite Z.mod_mod in E2 by lia.
  rewrite E1, E2. pose proof (Z.div_mod n 256 ltac:(lia)). lia.
Qed.

Lemma utf8_encode_ascii s : ascii_str s -> utf8_encode s = Ok s.
Proof.
  induction 1 as [|c s Hc _ IH]; [done|]. cbn [utf8_encode].
  unfold utf8_encode_char. destruct (c <? 128) eqn:E; [|lia].
  rewrite IH. reflexivity.
Qed.

Lemma utf8_decode_ascii s : ascii_str s -> utf8_decode s = Ok s.
Proof.
  induction 1 as [|c s Hc _ IH]; [done|]. cbn [utf8_decode].
  destruct (c <? 128) eqn:E; [|lia]. rewrite IH. reflexivity.
Qed.

Lemma map_byte_to_of_Z s :
  Forall (fun c => 0 <= c < 256) s -> map byte_to_Z (map byte_of_Z s) = s.
Proof.
  induction 1 as [|c s Hc _ IH]; [done|]. cbn [map].
  rewrite byte_to_of_Z, IH by done. reflexivity.
Qed.

Lemma read_app a b : read (len a) (a ++ b) = Ok (a, b).
Proof.
  unfold read, len. rewrite length_app.
  destruct (_ <? _) eqn:E; [apply Z.ltb_lt in E; lia|].
  rewrite Nat2Z.id, take_app_length, drop_app_length. reflexivity.
Qed.

(** For an ASCII string shorter than 65536 characters code points and
    bytes coincide, and [String] round-trips. *)
Lemma String_round_trip_ascii s :
  ascii_str s -> len s < 65536 ->
  (bs ← String_to_bytes s; from_bytes String_t bs) = Ok (String s).
Proof.
  intros Hs Hlen. pose proof (len_nonneg s) as H0.
  unfold String_to_bytes, build_uintbe.
  replace (_ && _) with true
    by (symmetry; apply andb_true_iff; split;
        [apply Z.leb_le|apply Z.ltb_lt]; simpl; lia).
  rewrite utf8_encode_ascii by done. cbn [mbind result_bind rbind].
  unfold from_bytes, fuel_for. cbn [from_buff].
  unfold String_from_buff, read_uintbe.
  replace 2 with (len (be_bytes 2 (len s))) at 1 by reflexivity.
  rewrite read_app. cbn [mbind result_bind rbind].
  rewrite uintbe_be_bytes_2 by lia.
  assert (Hl : len s = len (map byte_of_Z s))
    by (unfold len; rewrite length_map; done).
  rewrite Hl at 1. rewrite <- (app_nil_r (map byte_of_Z s)) at 2.
  rewrite read_app. cbn [mbind result_bind rbind].
  rewrite map_byte_to_of_Z.
  - rewrite utf8_decode_ascii by done. reflexivity.
  - eapply Forall_impl; [exact Hs|]. simpl. intros; lia.
Qed.

(** C5, as stated, fails: [List([Byte(1), Int(2)])] is constructed. *)
Lemma C5_counterexample : ~ exists e, List_init mixed = Raise e.
Proof. intros [e H]. discriminate H. Qed.

(** The loop of [List.to_bytes] is [encode_items]. *)
Lemma to_bytes_List bf items :
  to_bytes bf (List items)
  = (b1 ← build_uintbe 1 (match items with
                          | item :: _ => tag_type_id (type_of item)
                          | [] => 0
                          end);
     b4 ← build_uintbe 4 (len items);
     packed ← encode_items bf items;
     Ok (b1 ++ b4 ++ packed)).
Proof.
  cbn [to_bytes].
  match goal with
  | |- context [?F items] =>
      is_fix F; assert (E : forall l, F l = encode_items bf l)
  end.
  { induction l as [|x l IH]; [reflexivity|].
    cbn [encode_items]. rewrite <- IH. reflexivity. }
  rewrite E. reflexivity.
Qed.

Lemma encode_items_concat bf items encodings :
  Forall2 (fun item bs => to_bytes bf item = Ok bs) items encodings ->
  encode_items bf items = Ok (concat encodings).
Proof.
  induction 1 as [|item bs items encodings Hitem _ IH]; [reflexivity|].
  cbn [encode_items concat]. rewrite Hitem, IH. reflexivity.
Qed.

Lemma kind_byte_built t :
  build_uintbe 1 (tag_type_id t) = Ok [byte_of_Z (tag_type_id t)].
Proof. destruct t; reflexivity. Qed.

(** C5 (amended).  [List(items)] never fails and keeps the items as
    given, whatever their kinds; nor does encoding look at the kinds:
    for every non-empty list whose items can each be encoded,
    [to_bytes] writes the kind of the first item, the count and each
    item's own encoding, one after the other, so the mixed list
    [[Byte(1), Int(2)]] is written as a list of kind 1. *)
Theorem C5_list_construction_unchecked :
  (forall items, List_init items = Ok (List items))
  /\ (forall build_floatbe32 first rest encodings,
        Forall2 (fun item bs => to_bytes build_floatbe32 item = Ok bs)
                (first :: rest) encodings ->
        len (first :: rest) < 2 ^ 32 ->
        to_bytes build_floatbe32 (List (first :: rest))
        = Ok (byte_of_Z (tag_type_id (type_of first))
              :: be_bytes 4 (len (first :: rest)) ++ concat encodings))
  /\ (forall build_floatbe32,
         to_bytes build_floatbe32 (List mixed)
         = Ok [x01; x00; x00; x00; x02; x01; x00; x00; x00; x02]).
Proof.
  split; [reflexivity|]. split; [|reflexivity].
  intros bf first rest encodings Henc Hlen.
  rewrite to_bytes_List, kind_byte_built.
  cbn [mbind result_bind rbind]. unfold build_uintbe.
  pose proof (len_nonneg (first :: rest)) as H0.
  replace ((0 <=? len (first :: rest))
           && (len (first :: rest) <? 2 ^ (8 * Z.of_nat 4))) with true
    by (symmetry; apply andb_true_iff; split;
        [apply Z.leb_le|apply Z.ltb_lt]; lia).
  cbn [rbind]. rewrite (encode_items_concat _ _ _ Henc). reflexivity.
Qed.

Lemma C5_witness :
  to_bytes (fun _ => Raise ValueError) (List [Byte (-1); String (lit "a"); Int 2])
  = Ok [x01; x00; x00; x00; x03; xff; x00; x01; x61; x00; x00; x00; x02].
Proof.
  refine (proj1 (proj2 C5_list_construction_unchecked) (fun _ => Raise ValueError)
            (Byte (-1)) [String (lit "a"); Int 2]
            [[xff]; [x00; x01; x61]; [x00; x00; x00; x02]] _ _).
  - repeat constructor.
  - vm_compute; reflexivity.
Defined.


(** *** Round trips of the binary codec *)

(** *** Integers on the wire *)

Lemma byte_to_of_Z_mod z : byte_to_Z (byte_of_Z z) = z mod 256.
Proof.
  unfold byte_of_Z.
  pose proof (Z.mod_pos_bound z 256 ltac:(lia)) as H.
  rewrite <- (byte_to_of_Z (z mod 256)) at 2 by exact H.
  unfold byte_of_Z. rewrite Z.mod_mod by lia. reflexivity.
Qed.

Lemma uintbe_snoc bs b : uintbe (bs ++ [b]) = uintbe bs * 256 + byte_to_Z b.
Proof. unfold uintbe. rewrite fold_left_app. reflexivity. Qed.

Lemma be_bytes_length n v : length (be_bytes n v) = n.
Proof.
  revert v. induction n as [|n IH]; intros v; [reflexivity|].
  cbn [be_bytes]. rewrite length_app, IH. simpl. lia.
Qed.

Lemma len_be_bytes n v : len (be_bytes n v) = Z.of_nat n.
Proof. unfold len. by rewrite be_bytes_length. Qed.

Lemma uintbe_be_bytes n : forall v,
  0 <= v < 2 ^ (8 * Z.of_nat n) -> uintbe (be_bytes n v) = v.
Proof.
  induction n as [|n IH]; intros v Hv.
  - simpl in Hv. cbn. lia.
  - cbn [be_bytes]. rewrite uintbe_snoc, byte_to_of_Z_mod.
    rewrite IH.
    + pose proof (Z.div_mod v 256 ltac:(lia)). lia.
    + replace (8 * Z.of_nat (S n)) with (8 + 8 * Z.of_nat n) in Hv by lia.
      rewrite Z.pow_add_r in Hv by lia. change (2 ^ 8) with 256 in Hv.
      split; [apply Z.div_pos; lia|].
      apply Z.div_lt_upper_bound; lia.
Qed.


Lemma read_be_bytes n v rest :
  read (Z.of_nat n) (be_bytes n v ++ rest) = Ok (be_bytes n v, rest).
Proof. rewrite <- (len_be_bytes n v) at 1. apply read_app. Qed.

Lemma in_intbe_spec n v :
  in_intbe n v = true <-> - 2 ^ (8 * n - 1) <= v < 2 ^ (8 * n - 1).
Proof.
  unfold in_intbe. rewrite andb_true_iff, Z.leb_le, Z.ltb_lt. tauto.
Qed.


Lemma build_read_uintbe (n : nat) v rest :
  0 <= v < 2 ^ (8 * Z.of_nat n) ->
  build_uintbe n v = Ok (be_bytes n v)
  /\ read_uintbe (Z.of_nat n) (be_bytes n v ++ rest) = Ok (v, rest).
Proof.
  intros Hv. split.
  - unfold build_uintbe.
    destruct (0 <=? v) eqn:E1; [|lia]. destruct (v <? _) eqn:E2; [|lia].
    reflexivity.
  - unfold read_uintbe. rewrite read_be_bytes. cbn [mbind result_bind rbind].
    rewrite uintbe_be_bytes by done. reflexivity.
Qed.

(** *** Strings *)



(** *** Arrays *)










Lemma registry_id t : tag_type_registry !! tag_type_id t = Some t.
Proof. destruct t; reflexivity. Qed.










(** Decoding never yields more code points than bytes, and as many only
    from ASCII bytes, which it returns as they are. *)
Lemma utf8_decode_length : forall n bs s,
  (length bs <= n)%nat -> utf8_decode bs = Ok s ->
  (length s <= length bs)%nat
  /\ (length s = length bs -> s = bs /\ Forall (fun b => b < 128) bs).
Proof.
  induction n as [|n IH]; intros bs s Hn.
  - destruct bs; [|simpl in Hn; lia]. intros [= <-]. auto.
  - destruct bs as [|b0 r0]; [intros [= <-]; auto|]. simpl in Hn.
    cbn [utf8_decode].
    destruct (b0 <? 128) eqn:E0.
    { destruct (utf8_decode r0) as [s0|] eqn:E; [|discriminate].
      cbn [mbind result_bind rbind]. intros [= <-].
      destruct (IH r0 s0 ltac:(lia) E) as [H1 H2]. cbn [length].
      split; [lia|]. intros Heq. destruct H2 as [-> Hall]; [lia|].
      split; [reflexivity|]. constructor; [lia|done]. }
    destruct (b0 <? 194); [discriminate|].
    destruct (b0 <? 224).
    { destruct r0 as [|b1 r1]; [discriminate|].
      destruct (is_cont b1); [|discriminate].
      destruct (utf8_decode r1) as [s0|] eqn:E; [|discriminate].
      cbn [mbind result_bind rbind]. intros [= <-].
      destruct (IH r1 s0 ltac:(simpl in Hn; lia) E) as [H1 _].
      cbn [length]. split; lia. }
    destruct (b0 <? 240).
    { destruct r0 as [|b1 [|b2 r2]]; try discriminate.
      destruct (_ && _); [|discriminate].
      destruct (utf8_decode r2) as [s0|] eqn:E; [|discriminate].
      cbn [mbind result_bind rbind]. intros [= <-].
      destruct (IH r2 s0 ltac:(simpl in Hn; lia) E) as [H1 _].
      cbn [length]. split; lia. }
    destruct (b0 <? 245); [|discriminate].
    destruct r0 as [|b1 [|b2 [|b3 r3]]]; try discriminate.
    destruct (_ && _); [|discriminate].
    destruct (utf8_decode r3) as [s0|] eqn:E; [|discriminate].
    cbn [mbind result_bind rbind]. intros [= <-].
    destruct (IH r3 s0 ltac:(simpl in Hn; lia) E) as [H1 _].
    cbn [length]. split; lia.
Qed.

Lemma byte_to_Z_nonneg b : 0 <= byte_to_Z b.
Proof. unfold byte_to_Z. lia. Qed.

(** X9.  [String.from_bytes(String(s).to_bytes())] returns [String(s)]
    exactly when [s] is ASCII: the length prefix counts code points and
    is read as a count of bytes, so a string with any character above
    U+007F comes back shorter or raises. *)
Theorem String_round_trip_iff_ascii s bs :
  String_to_bytes s = Ok bs ->
  (from_bytes String_t bs = Ok (String s) <-> ascii_str s).
Proof.
  intros Hto. pose proof (len_nonneg s) as Hl0.
  assert (Hlen : len s < 65536).
  { unfold String_to_bytes, build_uintbe in Hto.
    destruct (0 <=? len s); destruct (len s <? _) eqn:E;
      try discriminate. apply Z.ltb_lt in E. simpl in E. lia. }
  split.
  - intros Hfrom.
    apply String_to_bytes_prefix in Hto as (body & Henc & ->).
    unfold from_bytes, fuel_for in Hfrom. cbn [from_buff] in Hfrom.
    unfold String_from_buff in Hfrom.
    destruct (build_read_uintbe 2 (len s) (map byte_of_Z body)
                ltac:(simpl; lia)) as [_ E].
    change (Z.of_nat 2) with 2 in E. rewrite E in Hfrom.
    cbn [mbind result_bind rbind] in Hfrom.
    destruct (read (len s) _) as [[b1 r1]|] eqn:Er; [|discriminate].
    cbn [mbind result_bind rbind] in Hfrom.
    destruct (utf8_decode _) as [s'|] eqn:Ed; [|discriminate].
    cbn [mbind result_bind rbind] in Hfrom. injection Hfrom as ->.
    assert (Hb1 : length b1 = length s).
    { unfold read in Er. destruct (_ <? _) eqn:El; [discriminate|].
      apply Z.ltb_ge in El. injection Er as <- _.
      rewrite length_take. unfold len in *. lia. }
    destruct (utf8_decode_length _ _ _ (le_n _) Ed) as [_ H2].
    rewrite length_map in H2. destruct (H2 (eq_sym Hb1)) as [-> Hall].
    unfold ascii_str. apply Forall_forall. intros c Hc.
    rewrite Forall_forall in Hall. specialize (Hall c Hc).
    apply list_elem_of_fmap in Hc as (b & -> & _).
    pose proof (byte_to_Z_nonneg b). lia.
  - intros Hs. pose proof (String_round_trip_ascii s Hs Hlen) as H.
    rewrite Hto in H. exact H.
Qed.

Lemma registry_lookup i t :
  tag_type_registry !! i = Some t <-> tag_type_id t = i.
Proof.
  split.
  - unfold tag_type_registry. intros H.
    apply elem_of_list_to_map_2 in H.
    repeat (apply elem_of_cons in H as [H|H];
            [injection H as -> ->; reflexivity|]).
    by apply elem_of_nil in H.
  - intros <-. apply registry_id.
Qed.

(** X10.  The registry: the twelve decorator calls of the module, run
    in order on the empty registry, never raise and leave
    [tag_type_registry]; in it an id is bound to a class exactly when
    it is that class's [tag_type_id], the ids are 1 to 12, and
    registering any class under an id in use, without [overwrite],
    raises [KeyError]. *)
Theorem registry_of_the_module :
  register_all module_registrations ∅ = Ok tag_type_registry
  /\ (forall i t, tag_type_registry !! i = Some t <-> tag_type_id t = i)
  /\ (forall t, 1 <= tag_type_id t <= 12)
  /\ (forall t t', register_tag_type (tag_type_id t) t' false tag_type_registry
                   = Raise KeyError).
Proof.
  split; [vm_compute; reflexivity|]. split; [exact registry_lookup|].
  split; [intros t; destruct t; simpl; lia|].
  intros t t'. unfold register_tag_type. rewrite registry_id. reflexivity.
Qed.

(** *** What the decoder returns *)

Lemma byte_to_Z_range b : 0 <= byte_to_Z b < 256.
Proof.
  unfold byte_to_Z. pose proof (Byte.to_N_bounded b). lia.
Qed.

Lemma uintbe_range bs : 0 <= uintbe bs < 2 ^ (8 * len bs).
Proof.
  induction bs as [|b bs IH] using rev_ind; [unfold uintbe, len; simpl; lia|].
  rewrite uintbe_snoc. unfold len in *. rewrite length_app. cbn [length].
  replace (8 * Z.of_nat (length bs + 1)) with (8 * Z.of_nat (length bs) + 8) by lia.
  rewrite Z.pow_add_r by lia. change (2 ^ 8) with 256.
  pose proof (byte_to_Z_range b). lia.
Qed.

Lemma intbe_range bs :
  0 < len bs -> in_intbe (len bs) (intbe bs) = true.
Proof.
  intros Hl. apply in_intbe_spec. unfold intbe.
  pose proof (uintbe_range bs) as Hu.
  set (h := 2 ^ (8 * len bs - 1)).
  assert (Hh : 0 < h) by (apply Z.pow_pos_nonneg; lia).
  assert (H2 : 2 ^ (8 * len bs) = 2 * h).
  { unfold h. rewrite <- Z.pow_succ_r by lia. f_equal. lia. }
  rewrite H2 in *. destruct (uintbe bs <? h) eqn:E; lia.
Qed.

Lemma read_len n buff bs rest :
  0 <= n -> read n buff = Ok (bs, rest) -> len bs = n.
Proof.
  unfold read, len. intros Hn. destruct (_ <? n) eqn:E; [discriminate|].
  intros [= <- <-]. rewrite length_take. lia.
Qed.

Lemma read_intbe_range n buff v rest :
  0 < n -> read_intbe n buff = Ok (v, rest) -> in_intbe n v = true.
Proof.
  intros Hn. unfold read_intbe.
  destruct (read n buff) as [[bs r]|] eqn:E; [|discriminate].
  cbn [mbind result_bind rbind]. intros [= <- <-].
  apply read_len in E; [|lia]. rewrite <- E. apply intbe_range. lia.
Qed.

Lemma words_fit (wb : nat) : forall n bs,
  forallb (Packed.fits (8 * Z.of_nat wb)) (words wb n bs) = true.
Proof.
  induction n as [|n IH]; intros bs; [reflexivity|].
  cbn [words forallb]. rewrite IH, andb_true_r.
  unfold Packed.fits. pose proof (uintbe_range (take wb bs)) as Hu.
  assert (2 ^ (8 * len (take wb bs)) <= 2 ^ (8 * Z.of_nat wb)).
  { apply Z.pow_le_mono_r; [lia|]. unfold len. rewrite length_take. lia. }
  apply andb_true_iff. split; [apply Z.leb_le|apply Z.ltb_lt]; lia.
Qed.

Lemma Array_from_buff_fits c mk buff v rest :
  Array_from_buff c mk buff = Ok (v, rest) ->
  exists data, v = mk data /\ forallb (Packed.fits (Packed.width c)) data = true.
Proof.
  unfold Array_from_buff.
  destruct (read_uintbe 4 buff) as [[n r1]|]; [|discriminate].
  cbn [mbind result_bind rbind].
  destruct (read _ r1) as [[bs r2]|]; [|discriminate].
  cbn [mbind result_bind rbind]. intros [= <- <-].
  eexists. split; [reflexivity|].
  destruct c; cbn [Packed.width].
  - change (8 / 8) with 1. change (Z.to_nat 1) with 1%nat.
    exact (words_fit 1 _ _).
  - change (32 / 8) with 4. change (Z.to_nat 4) with 4%nat.
    exact (words_fit 4 _ _).
  - change (64 / 8) with 8. change (Z.to_nat 8) with 8%nat.
    exact (words_fit 8 _ _).
Qed.

Lemma scalar_value_spec c :
  scalar_value c = true
  <-> 0 <= c <= 0x10FFFF /\ ~ (0xD800 <= c <= 0xDFFF).
Proof.
  unfold scalar_value.
  rewrite !andb_true_iff, negb_true_iff, andb_false_iff.
  rewrite !Z.leb_le, !Z.leb_gt. lia.
Qed.

(** Strict decoding yields scalar values only. *)
Lemma utf8_decode_scalar : forall n bs s,
  (length bs <= n)%nat -> Forall (fun b => 0 <= b < 256) bs ->
  utf8_decode bs = Ok s -> forallb scalar_value s = true.
Proof.
  induction n as [|n IH]; intros bs s Hn Hb.
  - destruct bs; [|simpl in Hn; lia]. intros [= <-]. reflexivity.
  - destruct bs as [|b0 r0]; [intros [= <-]; reflexivity|]. simpl in Hn.
    pose proof (Forall_inv Hb) as H0. pose proof (Forall_inv_tail Hb) as Hr0.
    cbv beta in H0. cbn [utf8_decode].
    destruct (Z.ltb_spec b0 128).
    { destruct (utf8_decode r0) as [s0|] eqn:E; [|discriminate].
      cbn [mbind result_bind rbind]. intros [= <-]. cbn [forallb].
      rewrite (IH r0 s0) by (auto; lia). rewrite andb_true_r.
      apply scalar_value_spec. lia. }
    destruct (Z.ltb_spec b0 194); [discriminate|].
    destruct (Z.ltb_spec b0 224).
    { destruct r0 as [|b1 r1]; [discriminate|].
      destruct (is_cont b1) eqn:C1; [|discriminate].
      destruct (utf8_decode r1) as [s0|] eqn:E; [|discriminate].
      cbn [mbind result_bind rbind]. intros [= <-]. cbn [forallb].
      rewrite (IH r1 s0) by (eauto using Forall_inv_tail; simpl in Hn; lia).
      rewrite andb_true_r. unfold is_cont in C1.
      apply andb_true_iff in C1 as [C1a C1b].
      apply Z.leb_le in C1a. apply Z.ltb_lt in C1b.
      apply scalar_value_spec. lia. }
    destruct (Z.ltb_spec b0 240).
    { destruct r0 as [|b1 [|b2 r2]]; try discriminate.
      destruct (_ && _) eqn:C; [|discriminate].
      destruct (utf8_decode r2) as [s0|] eqn:E; [|discriminate].
      cbn [mbind result_bind rbind]. intros [= <-]. cbn [forallb].
      rewrite (IH r2 s0)
        by (eauto using Forall_inv_tail; simpl in Hn; lia).
      rewrite andb_true_r.
      repeat (apply andb_true_iff in C as [C ?]).
      unfold is_cont in *.
      repeat match goal with
             | H : _ && _ = true |- _ => apply andb_true_iff in H as [? ?]
             | H : (_ <=? _) = true |- _ => apply Z.leb_le in H
             | H : (_ <? _) = true |- _ => apply Z.ltb_lt in H
             end.
      match goal with H : negb _ = true |- _ =>
        apply negb_true_iff, andb_false_iff in H; rewrite !Z.leb_gt in H end.
      apply scalar_value_spec. lia. }
    destruct (Z.ltb_spec b0 245); [|discriminate].
    destruct r0 as [|b1 [|b2 [|b3 r3]]]; try discriminate.
    destruct (_ && _) eqn:C; [|discriminate].
    destruct (utf8_decode r3) as [s0|] eqn:E; [|discriminate].
    cbn [mbind result_bind rbind]. intros [= <-]. cbn [forallb].
    rewrite (IH r3 s0)
      by (eauto using Forall_inv_tail; simpl in Hn; lia).
    rewrite andb_true_r.
    repeat (apply andb_true_iff in C as [C ?]).
    repeat match goal with
           | H : (_ <=? _) = true |- _ => apply Z.leb_le in H
           | H : (_ <? _) = true |- _ => apply Z.ltb_lt in H
           end.
    apply scalar_value_spec. lia.
Qed.

Lemma String_from_buff_scalar buff v rest :
  String_from_buff buff = Ok (v, rest) ->
  exists s, v = String s /\ forallb scalar_value s = true.
Proof.
  unfold String_from_buff.
  destruct (read_uintbe 2 buff) as [[n r1]|]; [|discriminate].
  cbn [mbind result_bind rbind].
  destruct (read n r1) as [[bs r2]|]; [|discriminate].
  cbn [mbind result_bind rbind].
  destruct (utf8_decode _) as [s|] eqn:E; [|discriminate].
  cbn [mbind result_bind rbind]. intros [= <- <-].
  exists s. split; [reflexivity|].
  eapply utf8_decode_scalar; [apply le_n| |exact E].
  apply Forall_forall. intros c Hc.
  apply list_elem_of_fmap in Hc as (b & -> & _). apply byte_to_Z_range.
Qed.

Lemma dict_set_keys {V} (data : list (str * V)) key value :
  map fst (dict_set data key value)
  = if bool_decide (key ∈ map fst data) then map fst data
    else map fst data ++ [key].
Proof.
  induction data as [|[k v] data IH]; [reflexivity|].
  cbn [dict_set map fst].
  destruct (decide (k = key)) as [->|Hne].
  - rewrite bool_decide_eq_true_2 by left. reflexivity.
  - cbn [map fst]. rewrite IH.
    destruct (bool_decide (key ∈ map fst data)) eqn:E.
    + apply bool_decide_eq_true in E.
      rewrite bool_decide_eq_true_2 by (by right). reflexivity.
    + apply bool_decide_eq_false in E.
      rewrite bool_decide_eq_false_2; [reflexivity|].
      intros [?|?]%elem_of_cons; [congruence|done].
Qed.

Lemma dict_set_NoDup {V} (data : list (str * V)) key value :
  NoDup (map fst data) -> NoDup (map fst (dict_set data key value)).
Proof.
  intros H. rewrite dict_set_keys.
  destruct (bool_decide _) eqn:E; [done|].
  apply bool_decide_eq_false in E.
  apply NoDup_app. split; [done|]. split; [|apply NoDup_singleton].
  intros x Hx [->|[]%elem_of_nil]%elem_of_cons. done.
Qed.

Lemma dict_set_Forall {V} (P : V -> Prop) (data : list (str * V)) key value :
  Forall (fun kv => P (snd kv)) data -> P value ->
  Forall (fun kv => P (snd kv)) (dict_set data key value).
Proof.
  intros H Hv. induction H as [|[k v] data Hk Hd IH]; cbn [dict_set].
  - constructor; [exact Hv|constructor].
  - destruct (decide (k = key)); constructor; auto.
Qed.

Lemma read_items_inv (P : tag -> Prop) f n :
  (forall buff v rest, f buff = Ok (v, rest) -> P v) ->
  forall buff vs rest, read_items f n buff = Ok (vs, rest) -> Forall P vs.
Proof.
  intros Hf. induction n as [|n IH]; cbn [read_items]; intros buff vs rest.
  - intros [= <- <-]. constructor.
  - destruct (f buff) as [[v r1]|] eqn:E1; [|discriminate].
    cbn [mbind result_bind rbind].
    destruct (read_items f n r1) as [[l r2]|] eqn:E2; [|discriminate].
    cbn [mbind result_bind rbind]. intros [= <- <-].
    constructor; eauto.
Qed.

Lemma same_kind_of_Forall kind items :
  Forall (fun v => type_of v = kind) items -> same_kind items = true.
Proof.
  intros H. destruct H as [|x items Hx Hr]; [reflexivity|].
  cbn [same_kind]. apply forallb_forall. intros y Hy.
  apply bool_decide_eq_true. rewrite Forall_forall in Hr.
  rewrite Hx. apply Hr. by apply list_elem_of_In.
Qed.

Lemma forallb_of_Forall {A} (f : A -> bool) l :
  Forall (fun x => f x = true) l -> forallb f l = true.
Proof. intros H. apply forallb_forall. rewrite Forall_forall in H. intros x Hx. apply H. by apply list_elem_of_In. Qed.

Lemma decoded_well_formed fuel :
  (forall t buff v rest,
      from_buff fuel t buff = Ok (v, rest) ->
      type_of v = t /\ well_formed_tag v = true)
  /\ (forall data buff data' rest,
      Compound_entries fuel data buff = Ok (data', rest) ->
      NoDup (map fst data) ->
      Forall (fun kv => well_formed_tag (snd kv) = true) data ->
      NoDup (map fst data')
      /\ Forall (fun kv => well_formed_tag (snd kv) = true) data').
Proof.
  induction fuel as [|fuel [IHf IHc]]; [split; simpl; intros; discriminate|].
  split.
  - intros t buff v rest. cbn [from_buff].
    destruct t.
    + destruct (read_intbe 1 buff) as [[x r]|] eqn:E; [|discriminate].
      cbn [mbind result_bind rbind]. intros [= <- <-].
      split; [reflexivity|]. apply (read_intbe_range 1) in E; [done|lia].
    + destruct (read_intbe 2 buff) as [[x r]|] eqn:E; [|discriminate].
      cbn [mbind result_bind rbind]. intros [= <- <-].
      split; [reflexivity|]. apply (read_intbe_range 2) in E; [done|lia].
    + destruct (read_intbe 4 buff) as [[x r]|] eqn:E; [|discriminate].
      cbn [mbind result_bind rbind]. intros [= <- <-].
      split; [reflexivity|]. apply (read_intbe_range 4) in E; [done|lia].
    + destruct (read_intbe 8 buff) as [[x r]|] eqn:E; [|discriminate].
      cbn [mbind result_bind rbind]. intros [= <- <-].
      split; [reflexivity|]. apply (read_intbe_range 8) in E; [done|lia].
    + destruct (read_uintbe 4 buff) as [[x r]|] eqn:E; [|discriminate].
      cbn [mbind result_bind rbind]. intros [= <- <-]. done.
    + destruct (read_uintbe 8 buff) as [[x r]|] eqn:E; [|discriminate].
      cbn [mbind result_bind rbind]. intros [= <- <-]. done.
    + intros H. apply Array_from_buff_fits in H as (d & -> & Hd). done.
    + intros H. apply String_from_buff_scalar in H as (s & -> & Hs). done.
    + (* List *)
      destruct (read_intbe 1 buff) as [[id r1]|] eqn:E1; [|discriminate].
      cbn [mbind result_bind rbind].
      destruct (read_intbe 4 r1) as [[n r2]|] eqn:E2; [|discriminate].
      cbn [mbind result_bind rbind].
      destruct (id =? 0); [intros [= <- <-]; done|].
      destruct (tag_type_registry !! id) as [it|]; [|discriminate].
      destruct (read_items _ _ r2) as [[items r3]|] eqn:E3; [|discriminate].
      cbn [mbind result_bind rbind]. intros [= <- <-].
      split; [reflexivity|]. cbn [well_formed_tag].
      apply andb_true_iff. split.
      * apply (same_kind_of_Forall it).
        eapply read_items_inv; [|exact E3].
        intros b v r Hb. apply IHf in Hb. tauto.
      * apply forallb_of_Forall.
        eapply read_items_inv; [|exact E3].
        intros b v r Hb. apply IHf in Hb. tauto.
    + (* Compound *)
      destruct (Compound_entries fuel [] buff) as [[d r]|] eqn:E; [|discriminate].
      cbn [mbind result_bind rbind]. intros [= <- <-].
      apply IHc in E as [Hnd Hall]; [|constructor|constructor].
      split; [reflexivity|]. cbn [well_formed_tag].
      apply andb_true_iff. split; [by apply bool_decide_eq_true|].
      by apply forallb_of_Forall.
    + intros H. apply Array_from_buff_fits in H as (d & -> & Hd). done.
    + intros H. apply Array_from_buff_fits in H as (d & -> & Hd). done.
  - intros data buff data' rest.
    destruct buff as [|b buff'].
    { cbn [Compound_entries]. intros [= <- <-]. done. }
    rewrite Compound_entries_nonempty.
    destruct (intbe [b] =? 0); [intros [= <- <-]; done|].
    destruct (tag_type_registry !! intbe [b]) as [t|]; [|discriminate].
    destruct (String_from_buff buff') as [[k r2]|] eqn:E2; [|discriminate].
    cbn [mbind result_bind rbind].
    destruct (from_buff fuel t r2) as [[v r3]|] eqn:E3; [|discriminate].
    cbn [mbind result_bind rbind]. intros E4 Hnd Hall.
    apply IHf in E3 as [_ Hv].
    apply IHc in E4; [exact E4|by apply dict_set_NoDup|].
    apply (dict_set_Forall (fun v => well_formed_tag v = true)); done.
Qed.

(** X11.  Whatever bytes it is given, a tag that [from_bytes] returns
    is of the class asked for and well formed: integers lie in the
    signed range of their kind, array words within the word size,
    strings hold Unicode scalar values only, every list holds items of
    one kind, and no dictionary repeats a key. *)
Theorem from_bytes_well_formed t bytes_ v :
  from_bytes t bytes_ = Ok v -> type_of v = t /\ well_formed_tag v = true.
Proof.
  unfold from_bytes.
  destruct (from_buff _ t bytes_) as [[v' r]|] eqn:E; [|discriminate].
  cbn [mbind result_bind rbind]. intros [= <-].
  destruct (decoded_well_formed (fuel_for bytes_)) as [H _]. eauto.
Qed.

Lemma decoded_tag_well_formed t bytes_ v :
  from_bytes t bytes_ = Ok v -> well_formed_tag v = true.
Proof.
  unfold from_bytes.
  destruct (from_buff _ t bytes_) as [[v' r]|] eqn:E; [|discriminate].
  cbn [mbind result_bind rbind]. intros [= <-].
  destruct (decoded_well_formed (fuel_for bytes_)) as [H _].
  apply H in E. tauto.
Qed.

(** X12.  [from_bytes] never returns a list of mixed kinds: a list
    whose items are not all of the kind of the first, which [to_bytes]
    accepts and writes, is the result of decoding no byte string,
    whatever class is asked for. *)
Theorem mixed_list_never_decoded items t bytes_ :
  same_kind items = false -> from_bytes t bytes_ <> Ok (List items).
Proof.
  intros Hm H. apply decoded_tag_well_formed in H.
  cbn [well_formed_tag] in H. rewrite Hm in H. discriminate H.
Qed.



Lemma String_round_trip_iff_ascii_witness :
  exists bs,
    String_to_bytes (lit "stone") = Ok bs
    /\ (from_bytes String_t bs = Ok (String (lit "stone"))
        <-> ascii_str (lit "stone")).
Proof.
  eexists. split; [vm_compute; reflexivity|].
  apply String_round_trip_iff_ascii. vm_compute; reflexivity.
Defined.

Lemma from_bytes_well_formed_witness :
  type_of (List [Byte 5; Byte (-1)]) = List_t
  /\ well_formed_tag (List [Byte 5; Byte (-1)]) = true.
Proof.
  apply (from_bytes_well_formed List_t
           (map byte_of_Z [1; 0; 0; 0; 2; 5; 255])).
  vm_compute; reflexivity.
Defined.

Lemma mixed_list_never_decoded_witness :
  from_bytes List_t (map byte_of_Z [3; 0; 0; 0; 2; 0; 0; 0; 1; 2])
  <> Ok (List [Int 1; Byte 2]).
Proof.
  apply mixed_list_never_decoded. vm_compute; reflexivity.
Defined.

End NbtFacts.

(** * Properties of the textual notation *)

Module SnbtFacts.
Import Nbt Snbt.

(** C2 fails on the code.  A compound whose key is the empty string is
    written as [{:1}], the key unquoted, which the grammar does not
    parse. *)
Theorem C2_empty_key_does_not_round_trip float_of_str str_of_float :
  to_snbt str_of_float empty_key = lit "{:1}"
  /\ from_snbt float_of_str (to_snbt str_of_float empty_key)
     = Raise ParseException.
Proof. split; vm_compute; reflexivity. Qed.

(** A key that needs escaping is written with [json.dumps] and read
    back with [remove_quotes], which keeps the backslash: the compound
    returns with a four-character key, the backslash included. *)
Lemma escaped_key_does_not_round_trip float_of_str str_of_float :
  to_snbt str_of_float quoted_key
  = [123; 34; 97; 92; 34; 98; 34; 58; 49; 125]
  /\ from_snbt float_of_str (to_snbt str_of_float quoted_key)
     = Ok (Nbt.Compound [([97; 92; 34; 98], Nbt.Int 1)]).
Proof. split; vm_compute; reflexivity. Qed.


(** *** The round trip of the textual notation *)

Import NbtFacts.

(** *** Decimal text *)






(** *** Scanning *)



Lemma skip_ws_head s : head_is (fun c => negb (is_space c)) s -> skip_ws s = s.
Proof.
  destruct s as [|c s]; [reflexivity|]. cbn [head_is skip_ws].
  intros H. apply negb_true_iff in H. rewrite H. reflexivity.
Qed.











(** *** json *)












(** *** The quoted-string expression *)









(** *** Lists of elements between brackets *)








(** *** Keys *)







Section Parse.
Variable float_of_str : str -> float.
Variable str_of_float : float -> str.














End Parse.







Section RoundTrip.
Variable float_of_str : str -> float.
Variable str_of_float : float -> str.







End RoundTrip.


End SnbtFacts.
